(** * fix_imports.py: import rewriting after a source-tree reorganisation

    A shallow embedding of [src/fix_imports.py] and theorems about it.

    Text is a [string]; each [ascii] stands for one code point (the model
    covers code points below 256).  Paths follow [posixpath], the [os.path]
    of the platform the script was written for.  The current working
    directory, which [os.path.abspath] reads, is an explicit argument
    [cwd]. *)

From Stdlib Require Import List String Ascii Bool Arith Lia.
Import ListNotations.
Local Open Scope list_scope.
Local Open Scope string_scope.

(** ** Characters that cannot be written inside a literal *)

Definition dquote : ascii := "034"%char.
Definition squote : ascii := "'"%char.
Definition newline : ascii := "010"%char.
Definition cr : ascii := "013"%char.
Definition sep : ascii := "/"%char.

(** ** Python [str] operations *)

Module Str.

(** [s.startswith(p)] *)
Fixpoint startswith (s p : string) {struct p} : bool :=
  match p, s with
  | EmptyString, _ => true
  | String a p', String b s' => Ascii.eqb a b && startswith s' p'
  | String _ _, EmptyString => false
  end.

Fixpoint take (n : nat) (s : string) : string :=
  match n, s with
  | S n', String c s' => String c (take n' s')
  | _, _ => EmptyString
  end.

Fixpoint drop (n : nat) (s : string) : string :=
  match n, s with
  | S n', String _ s' => drop n' s'
  | _, _ => s
  end.

(** [s.endswith(p)] *)
Definition endswith (s p : string) : bool :=
  (String.length p <=? String.length s)%nat
  && String.eqb (drop (String.length s - String.length p) s) p.

(** [p in s] for strings *)
Fixpoint contains (s p : string) : bool :=
  startswith s p
  || match s with
     | EmptyString => false
     | String _ s' => contains s' p
     end.

(** [s.rfind(c)], [None] standing for -1 *)
Fixpoint rfind (c : ascii) (s : string) : option nat :=
  match s with
  | EmptyString => None
  | String a s' =>
      match rfind c s' with
      | Some n => Some (S n)
      | None => if Ascii.eqb a c then Some 0 else None
      end
  end.

(** [s.rfind(c) + 1] *)
Definition rfind_succ (c : ascii) (s : string) : nat :=
  match rfind c s with
  | Some n => S n
  | None => 0
  end.

(** [s.rstrip(c)] *)
Fixpoint rstrip (c : ascii) (s : string) : string :=
  match s with
  | EmptyString => EmptyString
  | String a s' =>
      match rstrip c s' with
      | EmptyString => if Ascii.eqb a c then EmptyString else String a EmptyString
      | r => String a r
      end
  end.

(** [c * n] *)
Fixpoint replicate (n : nat) (c : ascii) : string :=
  match n with
  | 0 => EmptyString
  | S n' => String c (replicate n' c)
  end.

(** [s.split(c)]: never the empty list *)
Fixpoint split (c : ascii) (s : string) : list string :=
  match s with
  | EmptyString => [EmptyString]
  | String a s' =>
      if Ascii.eqb a c then EmptyString :: split c s'
      else match split c s' with
           | h :: t => String a h :: t
           | [] => [String a EmptyString]
           end
  end.

(** [c.join(l)] *)
Fixpoint join (c : ascii) (l : list string) : string :=
  match l with
  | [] => EmptyString
  | [x] => x
  | x :: l' => x ++ String c (join c l')
  end.

Definition is_empty (s : string) : bool :=
  match s with EmptyString => true | _ => false end.

End Str.

(** ** Exceptions *)

Inductive exn : Type :=
| ValueError (msg : string)
| IndexError (msg : string)
| OSError (msg : string).

Definition exn_str (e : exn) : string :=
  match e with
  | ValueError m => m
  | IndexError m => m
  | OSError m => m
  end.

Inductive result (A : Type) : Type :=
| Ok (a : A)
| Raise (e : exn).
Arguments Ok {A} a.
Arguments Raise {A} e.

Definition rbind {A B} (r : result A) (f : A -> result B) : result B :=
  match r with
  | Ok a => f a
  | Raise e => Raise e
  end.

Notation "x <~ r ;; k" := (rbind r (fun x => k))
  (at level 61, r at next level, right associativity).

(** ** [posixpath] *)

Module PosixPath.

Definition isabs (s : string) : bool := Str.startswith s "/".

(** One step of [join(a, *p)]'s loop *)
Definition join_step (path b : string) : string :=
  if Str.startswith b "/" then b
  else if Str.is_empty path || Str.endswith path "/" then path ++ b
  else path ++ "/" ++ b.

Definition join (a : string) (p : list string) : string :=
  fold_left join_step p a.

Definition dirname (p : string) : string :=
  let i := Str.rfind_succ sep p in
  let head := Str.take i p in
  if negb (Str.is_empty head)
     && negb (String.eqb head (Str.replicate (String.length head) sep))
  then Str.rstrip sep head
  else head.

Definition basename (p : string) : string :=
  let i := Str.rfind_succ sep p in
  Str.drop i p.

(** [splitext(p)[0]] for a [p]; leading dots of the file name are not an
    extension. *)
Fixpoint all_dots (s : string) : bool :=
  match s with
  | EmptyString => true
  | String c s' => Ascii.eqb c "." && all_dots s'
  end.

Definition splitext_root (p : string) : string :=
  let file_start := Str.rfind_succ sep p in
  match Str.rfind "." p with
  | Some dot =>
      if (file_start <=? dot)%nat
         && negb (all_dots (Str.take (dot - file_start) (Str.drop file_start p)))
      then Str.take dot p
      else p
  | None => p
  end.

(** The loop body of [normpath] on the stack [new_comps] *)
Definition norm_step (initial_slashes : nat) (new_comps : list string)
    (comp : string) : list string :=
  if String.eqb comp EmptyString || String.eqb comp "." then new_comps
  else if negb (String.eqb comp "..")
          || ((initial_slashes =? 0)%nat && (List.length new_comps =? 0)%nat)
          || (negb (List.length new_comps =? 0)%nat
              && String.eqb (last new_comps EmptyString) "..")
  then (new_comps ++ [comp])%list
  else if negb (List.length new_comps =? 0)%nat then removelast new_comps
  else new_comps.

Definition initial_slashes (path : string) : nat :=
  if Str.startswith path "/" then
    if Str.startswith path "//" && negb (Str.startswith path "///")
    then 2 else 1
  else 0.

Definition norm_comps (path : string) : list string :=
  fold_left (norm_step (initial_slashes path)) (Str.split sep path) [].

Definition normpath (path : string) : string :=
  if Str.is_empty path then "."
  else
    let p := Str.replicate (initial_slashes path) sep
             ++ Str.join sep (norm_comps path) in
    if Str.is_empty p then "." else p.

Definition abspath (cwd path : string) : string :=
  normpath (if isabs path then path else join cwd [path]).

(** [commonprefix] of two component lists *)
Fixpoint commonprefix (l1 l2 : list string) : list string :=
  match l1, l2 with
  | x :: l1', y :: l2' =>
      if String.eqb x y then x :: commonprefix l1' l2' else []
  | _, _ => []
  end.

Definition segments (p : string) : list string :=
  filter (fun x => negb (Str.is_empty x)) (Str.split sep p).

Definition relpath (cwd path start : string) : result string :=
  if Str.is_empty path then Raise (ValueError "no path specified")
  else
    let start_list := segments (abspath cwd start) in
    let path_list := segments (abspath cwd path) in
    let i := List.length (commonprefix start_list path_list) in
    let rel_list := (repeat ".." (List.length start_list - i) ++ skipn i path_list)%list in
    match rel_list with
    | [] => Ok "."
    | a :: p => Ok (join a p)
    end.

End PosixPath.

(** ** The fragment of Python's [re] the script uses

    A backtracking matcher in continuation-passing style: alternatives are
    tried in the order Python's engine tries them (a greedy repeat takes
    one more iteration first, a lazy one leaves first), so the first
    success is the match Python reports. *)

Module Re.

Inductive regex : Type :=
| REps
| RChar (c : ascii)
| RClass (p : ascii -> bool)
| RSeq (r1 r2 : regex)
| RGroup (n : nat) (r : regex)
| ROpt (r : regex)                       (* r?  greedy *)
| RStar (greedy : bool) (r : regex)      (* r*  or  r*? *)
| RNotBehind (s : string).               (* (?<!s), s a literal *)

(** [r+] *)
Definition RPlus (r : regex) : regex := RSeq r (RStar true r).

(** A literal string *)
Fixpoint RLit (s : string) : regex :=
  match s with
  | EmptyString => REps
  | String c s' => RSeq (RChar c) (RLit s')
  end.

(** [\s] on code points below 256 *)
Definition is_space (c : ascii) : bool :=
  let n := nat_of_ascii c in
  ((9 <=? n) && (n <=? 13) || (28 <=? n) && (n <=? 32)
   || (n =? 133) || (n =? 160))%nat.

(** [.] with and without [re.DOTALL] *)
Definition any_dotall (c : ascii) : bool := true.
Definition any_char (c : ascii) : bool := negb (Ascii.eqb c newline).

(** The cursor: the text behind it (nearest character first), the text
    ahead, the groups closed so far. *)
Record mstate : Type := MState {
  ms_behind : list ascii;
  ms_ahead : string;
  ms_groups : list (nat * string)
}.

Definition advance (c : ascii) (rest : string) (st : mstate) : mstate :=
  MState (c :: ms_behind st) rest (ms_groups st).

Definition consumed (st st' : mstate) : string :=
  Str.take (String.length (ms_ahead st) - String.length (ms_ahead st'))
           (ms_ahead st).

Definition close_group (n : nat) (st st' : mstate) : mstate :=
  MState (ms_behind st') (ms_ahead st') ((n, consumed st st') :: ms_groups st').

Fixpoint behind_is (rev_s : list ascii) (behind : list ascii) : bool :=
  match rev_s, behind with
  | [], _ => true
  | c :: rev_s', b :: behind' => Ascii.eqb c b && behind_is rev_s' behind'
  | _ :: _, [] => false
  end.

Definition orelse {A} (a : option A) (b : unit -> option A) : option A :=
  match a with
  | Some x => Some x
  | None => b tt
  end.

Fixpoint rmatch (r : regex) (st : mstate) (k : mstate -> option mstate)
    {struct r} : option mstate :=
  match r with
  | REps => k st
  | RChar c =>
      match ms_ahead st with
      | String a rest => if Ascii.eqb a c then k (advance a rest st) else None
      | EmptyString => None
      end
  | RClass p =>
      match ms_ahead st with
      | String a rest => if p a then k (advance a rest st) else None
      | EmptyString => None
      end
  | RSeq r1 r2 => rmatch r1 st (fun st' => rmatch r2 st' k)
  | RGroup n r' => rmatch r' st (fun st' => k (close_group n st st'))
  | ROpt r' => orelse (rmatch r' st k) (fun _ => k st)
  | RStar greedy r' =>
      (fix loop (fuel : nat) (st : mstate) {struct fuel} : option mstate :=
         match fuel with
         | 0 => k st
         | S fuel' =>
             let again (_ : unit) :=
               rmatch r' st (fun st' =>
                 if (String.length (ms_ahead st') <? String.length (ms_ahead st))%nat
                 then loop fuel' st' else None) in
             if greedy then orelse (again tt) (fun _ => k st)
             else orelse (k st) again
         end) (String.length (ms_ahead st)) st
  | RNotBehind s =>
      if behind_is (rev (list_ascii_of_string s)) (ms_behind st) then None
      else k st
  end.

(** A match object: [group(0)] and the numbered groups *)
Record rematch : Type := Match {
  m_full : string;
  m_groups : list (nat * string)
}.

Fixpoint lookup_group (n : nat) (l : list (nat * string)) : string :=
  match l with
  | [] => EmptyString
  | (i, s) :: l' => if (i =? n)%nat then s else lookup_group n l'
  end.

Definition group (m : rematch) (n : nat) : string :=
  match n with
  | 0 => m_full m
  | _ => lookup_group n (m_groups m)
  end.

(** The match of [r] that starts at the cursor, if any; with
    [must_advance] an empty match is refused. *)
Definition match_at (must_advance : bool) (r : regex)
    (behind : list ascii) (ahead : string) : option rematch :=
  let st0 := MState behind ahead [] in
  match rmatch r st0 (fun st =>
          if must_advance
             && (String.length (ms_ahead st) =? String.length ahead)%nat
          then None else Some st) with
  | Some st => Some (Match (consumed st0 st) (ms_groups st))
  | None => None
  end.

(** Output of a replacement callback: the text and the lines it printed *)
Definition out : Type := (string * list string)%type.

Definition out_cat (a b : out) : out :=
  (fst a ++ fst b, (snd a ++ snd b)%list).

Definition out_text (s : string) : out := (s, []).

(** [pattern.sub(repl, text)] for a callable [repl].  [skip] counts the
    characters still covered by the previous match. *)
Fixpoint sub_loop (r : regex) (repl : rematch -> out)
    (behind : list ascii) (ahead : string) (skip : nat) {struct ahead} : out :=
  match skip, ahead with
  | S k, String c ahead' => sub_loop r repl (c :: behind) ahead' k
  | S _, EmptyString => out_text EmptyString
  | 0, EmptyString =>
      match match_at false r behind EmptyString with
      | Some m => repl m
      | None => out_text EmptyString
      end
  | 0, String c ahead' =>
      match match_at false r behind ahead with
      | None =>
          out_cat (out_text (String c EmptyString))
                  (sub_loop r repl (c :: behind) ahead' 0)
      | Some m =>
          match String.length (m_full m) with
          | S k => out_cat (repl m) (sub_loop r repl (c :: behind) ahead' k)
          | 0 =>
              match match_at true r behind ahead with
              | Some m2 =>
                  out_cat (repl m)
                    (out_cat (repl m2)
                       (sub_loop r repl (c :: behind) ahead'
                          (pred (String.length (m_full m2)))))
              | None =>
                  out_cat (repl m)
                    (out_cat (out_text (String c EmptyString))
                       (sub_loop r repl (c :: behind) ahead' 0))
              end
          end
      end
  end.

Definition sub (r : regex) (repl : rematch -> out) (text : string) : out :=
  sub_loop r repl [] text 0.

(** The text as [pattern.sub] cuts it, whatever the replacement: the
    matches it visits, which are those of [pattern.finditer], and the
    characters it copies *)
Inductive piece : Type :=
| Lit (c : ascii)
| Hit (m : rematch).

Fixpoint pieces_loop (r : regex) (behind : list ascii) (ahead : string)
    (skip : nat) {struct ahead} : list piece :=
  match skip, ahead with
  | S k, String c ahead' => pieces_loop r (c :: behind) ahead' k
  | S _, EmptyString => []
  | 0, EmptyString =>
      match match_at false r behind EmptyString with
      | Some m => [Hit m]
      | None => []
      end
  | 0, String c ahead' =>
      match match_at false r behind ahead with
      | None => Lit c :: pieces_loop r (c :: behind) ahead' 0
      | Some m =>
          match String.length (m_full m) with
          | S k => Hit m :: pieces_loop r (c :: behind) ahead' k
          | 0 =>
              match match_at true r behind ahead with
              | Some m2 =>
                  Hit m :: Hit m2
                  :: pieces_loop r (c :: behind) ahead'
                       (pred (String.length (m_full m2)))
              | None =>
                  Hit m :: Lit c :: pieces_loop r (c :: behind) ahead' 0
              end
          end
      end
  end.

Definition pieces (r : regex) (text : string) : list piece :=
  pieces_loop r [] text 0.

(** [pattern.sub(s, text)] for a replacement string without escapes *)
Definition sub_str (r : regex) (s : string) (text : string) : string :=
  fst (sub r (fun _ => out_text s) text).

End Re.

(** ** [fix_imports.py] *)

Definition MAPPING : list (string * string) :=
  [ ("SetupWizard", "features/onboarding/SetupWizard");
    ("RecordingControls", "features/capture/RecordingControls");
    ("LiveTranscript", "features/capture/LiveTranscript");
    ("MeetingDetectionBanner", "features/capture/MeetingDetectionBanner");
    ("VideoDiagnostics", "features/capture/VideoDiagnostics");
    ("MeetingHistory", "features/memory/MeetingHistory");
    ("RewindTimeline", "features/memory/RewindTimeline");
    ("RewindGallery", "features/memory/RewindGallery");
    ("SyncedTimeline", "features/memory/SyncedTimeline");
    ("AmbientTimeline", "features/memory/AmbientTimeline");
    ("ActivityTimeline", "features/memory/ActivityTimeline");
    ("RecordingsLibrary", "features/memory/RecordingsLibrary");
    ("AIChat", "features/intelligence/AIChat");
    ("CopilotPanel", "features/intelligence/CopilotPanel");
    ("MeetingIntelPanel", "features/intelligence/MeetingIntelPanel");
    ("LearnedDataEditor", "features/intelligence/LearnedDataEditor");
    ("EntitiesView", "features/intelligence/EntitiesView");
    ("PromptBrowser", "features/intelligence/PromptBrowser");
    ("PromptLibrary", "features/intelligence/PromptLibrary");
    ("ComparisonLab", "features/intelligence/ComparisonLab");
    ("Settings", "features/settings/Settings");
    ("FullSettings", "features/settings/FullSettings");
    ("AISettings", "features/settings/AISettings");
    ("IngestSettings", "features/settings/IngestSettings");
    ("KnowledgeBaseSettings", "features/settings/KnowledgeBaseSettings");
    ("PermissionsStatus", "features/settings/PermissionsStatus");
    ("ThemeSelector", "features/settings/ThemeSelector");
    ("TranscriptionSettings", "features/settings/TranscriptionSettings");
    ("AlwaysOnSettings", "features/settings/AlwaysOnSettings");
    ("ActivityThemesSettings", "features/settings/ActivityThemesSettings");
    ("InsightsView", "features/analytics/InsightsView");
    ("StorageMeter", "features/analytics/StorageMeter");
    ("SystemStatus", "features/analytics/SystemStatus");
    ("AuditLog", "features/analytics/AuditLog");
    ("AdminConsole", "features/analytics/AdminConsole");
    ("ToolsConsole", "features/analytics/ToolsConsole");
    ("GlobalErrorBoundary", "components/common/GlobalErrorBoundary");
    ("CommandPalette", "components/common/CommandPalette");
    ("SearchBar", "components/common/SearchBar");
    ("KBSearch", "components/common/KBSearch");
    ("Sidebar", "components/layout/Sidebar");
    ("Help", "components/layout/Help") ].

(** [MAPPING[name]], [None] when [name not in MAPPING] *)
Fixpoint dict_get (d : list (string * string)) (name : string) : option string :=
  match d with
  | [] => None
  | (k, v) :: d' => if String.eqb k name then Some v else dict_get d' name
  end.

(** [l[i]] *)
Definition index (l : list string) (i : nat) : result string :=
  match nth_error l i with
  | Some x => Ok x
  | None => Raise (IndexError "list index out of range")
  end.

Definition FOLDERS : list string :=
  ["lib"; "hooks"; "contexts"; "assets"; "utils"; "types"].

Definition is_quote (c : ascii) : bool :=
  Ascii.eqb c dquote || Ascii.eqb c squote.

(** [(?<!\.\./)\.\./] followed by the folder name *)
Definition depth_pattern (folder : string) : Re.regex :=
  Re.RSeq (Re.RNotBehind "../") (Re.RLit ("../" ++ folder)).

(** [(import\s+.*?from\s+)(["\'])(.*?)(["\'];?)] with [re.DOTALL] *)
Definition import_pattern : Re.regex :=
  Re.RSeq
    (Re.RGroup 1
       (Re.RSeq (Re.RLit "import")
       (Re.RSeq (Re.RPlus (Re.RClass Re.is_space))
       (Re.RSeq (Re.RStar false (Re.RClass Re.any_dotall))
       (Re.RSeq (Re.RLit "from")
                (Re.RPlus (Re.RClass Re.is_space)))))))
  (Re.RSeq (Re.RGroup 2 (Re.RClass is_quote))
  (Re.RSeq (Re.RGroup 3 (Re.RStar false (Re.RClass Re.any_dotall)))
           (Re.RGroup 4 (Re.RSeq (Re.RClass is_quote) (Re.ROpt (Re.RChar ";")))))).

(** [(import\()(["\'])(.*?)(["\']\))] *)
Definition dynamic_import_pattern : Re.regex :=
  Re.RSeq (Re.RGroup 1 (Re.RLit "import("))
  (Re.RSeq (Re.RGroup 2 (Re.RClass is_quote))
  (Re.RSeq (Re.RGroup 3 (Re.RStar false (Re.RClass Re.any_char)))
           (Re.RGroup 4 (Re.RSeq (Re.RClass is_quote) (Re.RChar ")"))))).

(** Step 1 of [fix_imports_in_file]: the loop over the shared folders *)
Definition depth_correction (content : string) : string :=
  fold_left
    (fun new_content folder =>
       Re.sub_str (depth_pattern folder) ("../../" ++ folder) new_content)
    FOLDERS content.

Definition is_moved_feature_file (parts : list string) : result bool :=
  p0 <~ index parts 0 ;;
  Ok (String.eqb p0 "features" && (3 <=? List.length parts)%nat).

Definition is_moved_layout_file (parts : list string) : result bool :=
  p0 <~ index parts 0 ;;
  if String.eqb p0 "components" then
    p1 <~ index parts 1 ;;
    Ok (String.eqb p1 "layout" || String.eqb p1 "common")
  else Ok false.

Section ReplaceImport.

(** The call [get_relative_path(filepath, MAPPING[name])], kept abstract
    here so that the handler of [replace_import] is specified for every
    way the resolution can fail. *)
Variable resolve : string -> string -> result string.

Variable filepath : string.

(** The body of the [try] block together with the final
    [return full_match] that is reached when no branch returns. *)
Definition replace_import_try (m : Re.rematch) : result string :=
  let full_match := Re.group m 0 in
  let quote := Re.group m 2 in
  let path_str := Re.group m 3 in
  let current_dir := PosixPath.dirname filepath in
  if negb (Str.startswith path_str ".") then Ok full_match
  else if Str.endswith path_str ".css" then
    if Str.contains path_str "VideoDiagnostics.module.css"
       && Str.contains filepath "VideoDiagnostics"
    then Ok full_match
    else Ok full_match
  else
    let basename := PosixPath.basename path_str in
    let basename :=
      if Str.endswith basename ".tsx" || Str.endswith basename ".ts"
      then PosixPath.splitext_root basename else basename in
    match dict_get MAPPING basename with
    | Some target =>
        new_rel <~ resolve filepath target ;;
        Ok (Re.group m 1 ++ quote ++ new_rel ++ quote ++ Re.group m 4)
    | None =>
        if Str.contains path_str "components/" then
          let possible_name := PosixPath.basename path_str in
          match dict_get MAPPING possible_name with
          | Some target =>
              new_rel <~ resolve filepath target ;;
              Ok (Re.group m 1 ++ quote ++ new_rel ++ quote ++ Re.group m 4)
          | None => Ok full_match
          end
        else Ok full_match
    end.

Definition error_line (m : Re.rematch) (e : exn) : string :=
  "Error processing import " ++ Re.group m 3 ++ " in " ++ filepath
    ++ ": " ++ exn_str e.

(** [replace_import]: the [try] block under its [except Exception] *)
Definition replace_import_with (m : Re.rematch) : Re.out :=
  match replace_import_try m with
  | Ok s => (s, [])
  | Raise e => (Re.group m 0, [error_line m e])
  end.

(** Step 2 of [fix_imports_in_file]: both substitutions *)
Definition fix_component_imports (content : string) : Re.out :=
  let r1 := Re.sub import_pattern replace_import_with content in
  let r2 := Re.sub dynamic_import_pattern replace_import_with (fst r1) in
  (fst r2, (snd r1 ++ snd r2)%list).

End ReplaceImport.

Section Program.

(** [os.getcwd()] *)
Variable cwd : string.

Definition SRC_ROOT : string := PosixPath.abspath cwd "src".

Definition get_relative_path (from_file to_target : string) : result string :=
  let from_dir := PosixPath.dirname from_file in
  let target_abs := PosixPath.join SRC_ROOT [to_target] in
  rel <~ PosixPath.relpath cwd target_abs from_dir ;;
  Ok (if negb (Str.startswith rel ".") then "./" ++ rel else rel).

Definition replace_import (filepath : string) (m : Re.rematch) : Re.out :=
  replace_import_with get_relative_path filepath m.

(** [is_moved_feature_file or is_moved_layout_file], both evaluated *)
Definition is_moved (filepath : string) : result bool :=
  rel_path_from_src <~ PosixPath.relpath cwd filepath SRC_ROOT ;;
  let parts := Str.split sep rel_path_from_src in
  is_moved_feature_file <~ is_moved_feature_file parts ;;
  is_moved_layout_file <~ is_moved_layout_file parts ;;
  Ok (is_moved_feature_file || is_moved_layout_file).

(** Step 1 under its guard *)
Definition depth_step (filepath content : string) : result string :=
  moved <~ is_moved filepath ;;
  Ok (if moved then depth_correction content else content).

(** From [content] to [new_content] in [fix_imports_in_file], with the
    lines printed on the way *)
Definition transform (filepath content : string) : result Re.out :=
  new_content <~ depth_step filepath content ;;
  Ok (fix_component_imports get_relative_path filepath new_content).

End Program.

(** ** Files and the console *)

(** What [open(p, 'r')] followed by [read()] does on a file *)
Inductive reading : Type :=
| ReadOk            (* both succeed *)
| ReadDenied        (* [open] raises an [OSError] *)
| ReadUndecodable.  (* [read()] raises a [UnicodeDecodeError], a
                       [ValueError]: the bytes are not text in the
                       encoding of the locale *)

(** What [open(p, 'w')] followed by [write(s)] does on a file *)
Inductive writing : Type :=
| WriteOk           (* both succeed *)
| WriteDenied       (* [open] raises an [OSError], the file is as before *)
| WriteFails.       (* [open] has emptied the file, then [write] or the
                       closing flush raises an [OSError] *)

Record file : Type := MkFile {
  f_content : string;   (* the text stored, line ends as stored *)
  f_read : reading;
  f_write : writing
}.

(** [open(p, 'r')] and [read()] succeed *)
Definition f_readable (f : file) : bool :=
  match f_read f with ReadOk => true | _ => false end.

(** [open(p, 'w')] and [write()] succeed *)
Definition f_writable (f : file) : bool :=
  match f_write f with WriteOk => true | _ => false end.

(** A file on which an access either succeeds or is denied at [open] *)
Definition File (content : string) (readable writable : bool) : file :=
  MkFile content
    (if readable then ReadOk else ReadDenied)
    (if writable then WriteOk else WriteDenied).

(** Text mode with [newline=None]: [read()] gives the line ends [\r\n]
    and [\r] as [\n] *)
Fixpoint universal_newlines (s : string) : string :=
  match s with
  | EmptyString => EmptyString
  | String c s' =>
      if Ascii.eqb c cr then
        if Str.startswith s' (String newline EmptyString)
        then universal_newlines s'
        else String newline (universal_newlines s')
      else String c (universal_newlines s')
  end.

Record world : Type := World {
  w_files : list (string * file);
  w_stdout : list string
}.

Fixpoint fs_get (fs : list (string * file)) (p : string) : option file :=
  match fs with
  | [] => None
  | (k, f) :: fs' => if String.eqb k p then Some f else fs_get fs' p
  end.

Fixpoint fs_set (fs : list (string * file)) (p : string) (f : file)
    : list (string * file) :=
  match fs with
  | [] => [(p, f)]
  | (k, g) :: fs' =>
      if String.eqb k p then (k, f) :: fs' else (k, g) :: fs_set fs' p f
  end.

(** Computations that read and write the world and may raise *)
Definition M (A : Type) : Type := world -> result A * world.

Definition ret {A} (a : A) : M A := fun w => (Ok a, w).

Definition bind {A B} (m : M A) (f : A -> M B) : M B :=
  fun w =>
    match m w with
    | (Ok a, w') => f a w'
    | (Raise e, w') => (Raise e, w')
    end.

Definition lift {A} (r : result A) : M A := fun w => (r, w).

Notation "x <- m ;; k" := (bind m (fun x => k))
  (at level 61, m at next level, right associativity).
Notation "m ;;; k" := (bind m (fun _ => k))
  (at level 61, right associativity).

Definition print (line : string) : M unit :=
  fun w => (Ok tt, World (w_files w) (w_stdout w ++ [line])%list).

Fixpoint for_each {A} (l : list A) (body : A -> M unit) : M unit :=
  match l with
  | [] => ret tt
  | x :: l' => body x ;;; for_each l' body
  end.

(** [with open(p, 'r') as f: content = f.read()] *)
Definition read_file (p : string) : M string :=
  fun w =>
    match fs_get (w_files w) p with
    | Some f =>
        match f_read f with
        | ReadOk => (Ok (universal_newlines (f_content f)), w)
        | ReadDenied => (Raise (OSError ("Permission denied: " ++ p)), w)
        | ReadUndecodable =>
            (Raise (ValueError ("codec can't decode bytes: " ++ p)), w)
        end
    | None => (Raise (OSError ("No such file or directory: " ++ p)), w)
    end.

(** [with open(p, 'w') as f: f.write(s)]; on this platform [\n] is
    written as it is *)
Definition write_file (p s : string) : M unit :=
  fun w =>
    match fs_get (w_files w) p with
    | Some f =>
        match f_write f with
        | WriteOk =>
            (Ok tt, World (fs_set (w_files w) p
                             (MkFile s (f_read f) (f_write f)))
                          (w_stdout w))
        | WriteDenied => (Raise (OSError ("Permission denied: " ++ p)), w)
        | WriteFails =>
            (Raise (OSError ("No space left on device: " ++ p)),
             World (fs_set (w_files w) p
                      (MkFile EmptyString (f_read f) (f_write f)))
                   (w_stdout w))
        end
    | None => (Ok tt, World (fs_set (w_files w) p (File s true true))
                            (w_stdout w))
    end.

Section Batch.

Variable cwd : string.

Definition fix_imports_in_file (filepath : string) : M unit :=
  content <- read_file filepath ;;
  r <- lift (transform cwd filepath content) ;;
  for_each (snd r) print ;;;
  let new_content := fst r in
  if negb (String.eqb new_content content) then
    print ("Updating " ++ filepath) ;;;
    write_file filepath new_content
  else ret tt.

Definition eligible (file : string) : bool :=
  Str.endswith file ".tsx" || Str.endswith file ".ts".

(** The inner loop of [main] *)
Definition fix_files (root : string) (files : list string) : M unit :=
  for_each files (fun file =>
    if eligible file
    then fix_imports_in_file (PosixPath.join root [file])
    else ret tt).

(** The outer loop of [main] over the triples [os.walk] yields *)
Definition fix_tree (walk : list (string * list string * list string))
    : M unit :=
  for_each walk (fun entry =>
    match entry with
    | (root, dirs, files) => fix_files root files
    end).

(** [main], on the triples [os.walk(SRC_ROOT)] yields *)
Definition main (walk : list (string * list string * list string))
    : M unit :=
  print "Starting import fix..." ;;;
  fix_tree walk ;;;
  print "Done.".

End Batch.

(** ** [replace_import] without its secondary branch

    The reference for the refinement statement: the same function with
    the [if "components/" in path_str] branch deleted. *)

Section ReplaceImportPrimary.

Variable resolve : string -> string -> result string.
Variable filepath : string.

Definition replace_import_try_primary (m : Re.rematch) : result string :=
  let full_match := Re.group m 0 in
  let quote := Re.group m 2 in
  let path_str := Re.group m 3 in
  if negb (Str.startswith path_str ".") then Ok full_match
  else if Str.endswith path_str ".css" then Ok full_match
  else
    let basename := PosixPath.basename path_str in
    let basename :=
      if Str.endswith basename ".tsx" || Str.endswith basename ".ts"
      then PosixPath.splitext_root basename else basename in
    match dict_get MAPPING basename with
    | Some target =>
        new_rel <~ resolve filepath target ;;
        Ok (Re.group m 1 ++ quote ++ new_rel ++ quote ++ Re.group m 4)
    | None => Ok full_match
    end.

Definition replace_import_primary (m : Re.rematch) : Re.out :=
  match replace_import_try_primary m with
  | Ok s => (s, [])
  | Raise e => (Re.group m 0, [error_line filepath m e])
  end.

End ReplaceImportPrimary.

(** ** Sample inputs *)

(** [s] between two [q] characters *)
Definition quoted (q : ascii) (s : string) : string :=
  String q (s ++ String q EmptyString).

(** The match object of a statement with the four groups given *)
Definition statement (g1 g2 g3 g4 : string) : Re.rematch :=
  Re.Match (g1 ++ g2 ++ g3 ++ g4) [(4, g4); (3, g3); (2, g2); (1, g1)].

(** A resolver that always fails *)
Definition failing_resolve (from_file to_target : string) : result string :=
  Raise (ValueError "no path specified").

(** [resolve], failing on the target [target] only *)
Definition failing_on (target : string)
    (resolve : string -> string -> result string)
    (from_file to_target : string) : result string :=
  if String.eqb to_target target then Raise (ValueError "no path specified")
  else resolve from_file to_target.

(** A tree with an unreadable file enumerated before a relocated file
    that needs its depth corrected *)
Definition sample_world : world :=
  World [ ("/repo/src/features/capture/Broken.tsx",
           File "import x from '../lib/x';" false true);
          ("/repo/src/features/capture/LiveTranscript.tsx",
           File "import y from '../lib/y';" true true) ]
        [].

Definition sample_walk : list (string * list string * list string) :=
  [ ("/repo/src", ["features"], []);
    ("/repo/src/features", ["capture"], []);
    ("/repo/src/features/capture", [],
     ["Broken.tsx"; "LiveTranscript.tsx"]) ].

(** A relocated file stored with [\r\n] line ends *)
Definition crlf : string := String cr (String newline EmptyString).

Definition crlf_world : world :=
  World [ ("/repo/src/features/capture/Panel.tsx",
           File ("import { api } from '../lib/api';" ++ crlf
                 ++ "export {};" ++ crlf) true true) ]
        [].

(** ** Names used in the statements *)

Definition has_source_ext (name : string) : bool :=
  Str.endswith name ".tsx" || Str.endswith name ".ts".

(** The name [replace_import] looks up first: the basename of the path
    literal without a source extension *)
Definition lookup_name (path_str : string) : string :=
  let basename := PosixPath.basename path_str in
  if has_source_ext basename then PosixPath.splitext_root basename else basename.

(** No separator inside *)
Fixpoint sep_free (s : string) : bool :=
  match s with
  | EmptyString => true
  | String a s' => negb (Ascii.eqb a sep) && sep_free s'
  end.

(** A component that [normpath] keeps as it is *)
Definition clean (comp : string) : bool :=
  negb (String.eqb comp EmptyString) && negb (String.eqb comp ".")
  && negb (String.eqb comp "..") && sep_free comp.

(** The text of a normalised absolute path: [k] slashes, then the
    components *)
Definition canonical (k : nat) (comps : list string) : string :=
  Str.replicate k sep ++ Str.join sep comps.

(** What [(?<!\.\./)] looks for behind the cursor, nearest character
    first *)
Definition lookbehind : list ascii := rev (list_ascii_of_string "../").

(** Every [../folder] in the text ahead has [../] right before it *)
Fixpoint guarded (folder : string) (behind : list ascii) (ahead : string)
    : bool :=
  match ahead with
  | EmptyString => true
  | String c rest =>
      (negb (Str.startswith ahead ("../" ++ folder))
       || Re.behind_is lookbehind behind)
      && guarded folder (c :: behind) rest
  end.

(** No dot inside *)
Fixpoint dot_free (s : string) : bool :=
  match s with
  | EmptyString => true
  | String a s' => negb (Ascii.eqb a ".") && dot_free s'
  end.

(** A folder name the depth pattern is built from: not empty, no dot *)
Definition word (folder : string) : bool :=
  negb (Str.is_empty folder) && dot_free folder.

(** The replacement callback of one depth pass *)
Definition depth_repl (folder : string) (m : Re.rematch) : Re.out :=
  Re.out_text ("../../" ++ folder).

(** The text of a pass from a position on *)
Definition pass_text (folder : string) (behind : list ascii) (ahead : string)
    (skip : nat) : string :=
  fst (Re.sub_loop (depth_pattern folder) (depth_repl folder) behind ahead skip).

(** ** Files under the source root *)

(** The text of the components [comps] below a directory: a separator
    before each *)
Fixpoint tail_path (comps : list string) : string :=
  match comps with
  | [] => EmptyString
  | c :: comps' => String sep c ++ tail_path comps'
  end.

(** The path [main] passes for the file [file] in the directory [dir]
    below the source root: [os.walk] and [os.path.join] put one separator
    between the components *)
Definition file_under (cwd : string) (dir : list string) (file : string)
    : string :=
  SRC_ROOT cwd ++ tail_path (dir ++ [file]).

(** [up] levels up, then [down] *)
Definition rel_of (up : nat) (down : list string) : string :=
  match (repeat ".." up ++ down)%list with
  | [] => "."
  | l =>
      let rel := Str.join sep l in
      if Str.startswith rel "." then rel else "./" ++ rel
  end.

(** The directories whose files get the depth correction *)
Definition relocated (dir : list string) : bool :=
  match dir with
  | d0 :: d1 :: _ =>
      String.eqb d0 "features"
      || String.eqb d0 "components"
         && (String.eqb d1 "layout" || String.eqb d1 "common")
  | _ => false
  end.

(** A file that can be read and written *)
Definition usable (w : world) (p : string) : Prop :=
  exists f, fs_get (w_files w) p = Some f
            /\ f_readable f = true /\ f_writable f = true.

(** What [os.walk(SRC_ROOT)] yields on a tree of plain names whose source
    files can be read and written: every root is a directory below the
    source root *)
Definition tree_ok (cwd : string)
    (walk : list (string * list string * list string)) (w : world) : Prop :=
  Forall
    (fun entry =>
       match entry with
       | (root, dirs, files) =>
           exists dir,
             Forall (fun c => clean c = true) dir
             /\ root = SRC_ROOT cwd ++ tail_path dir
             /\ Forall
                  (fun file =>
                     eligible file = true ->
                     clean file = true /\ usable w (file_under cwd dir file))
                  files
       end)
    walk.

(** A source file to correct beside its stylesheet *)
Definition styled_world : world :=
  World [ ("/repo/src/features/capture/LiveTranscript.tsx",
           File "import y from '../lib/y';" true true);
          ("/repo/src/features/capture/LiveTranscript.css",
           File "@import '../lib/base.css';" true true) ]
        [].

Definition styled_walk : list (string * list string * list string) :=
  [ ("/repo/src", ["features"], []);
    ("/repo/src/features", ["capture"], []);
    ("/repo/src/features/capture", [],
     ["LiveTranscript.tsx"; "LiveTranscript.css"]) ].

(** A line that names an updated file *)
Definition updating (line : string) : Prop :=
  Str.startswith line "Updating " = true.

(** A pattern without a capturing group *)
Fixpoint group_free (r : Re.regex) : bool :=
  match r with
  | Re.RGroup _ _ => false
  | Re.RSeq r1 r2 => group_free r1 && group_free r2
  | Re.ROpt r' => group_free r'
  | Re.RStar _ r' => group_free r'
  | _ => true
  end.

(** The cursor after reading [mid], with [rest] still ahead *)
Definition after (mid rest : string) (st : Re.mstate) : Re.mstate :=
  Re.MState (rev (list_ascii_of_string mid) ++ Re.ms_behind st) rest
            (Re.ms_groups st).

(** The shape of both import patterns: a prefix group, a quote, the path
    and a group that starts with a quote *)
Definition statement_pattern (prefix path trailer : Re.regex) : Re.regex :=
  Re.RSeq (Re.RGroup 1 prefix)
  (Re.RSeq (Re.RGroup 2 (Re.RClass is_quote))
  (Re.RSeq (Re.RGroup 3 path)
           (Re.RGroup 4 (Re.RSeq (Re.RClass is_quote) trailer)))).

(** The text contains the name of a moved component *)
Definition mentions_moved (content : string) : bool :=
  existsb (fun key => Str.contains content key) (map fst MAPPING).

(** An entry of the table whose target is a path of plain components
    ending in the key *)
Definition entry_ok (entry : string * string) : bool :=
  let comps := Str.split sep (snd entry) in
  forallb clean comps
  && String.eqb (Str.join sep comps) (snd entry)
  && String.eqb (last comps EmptyString) (fst entry).

(** No line feed inside *)
Fixpoint line_free (p : string) : bool :=
  match p with
  | EmptyString => true
  | String a p' => negb (Ascii.eqb a newline) && line_free p'
  end.

(** The characters behind the cursor back to the last line end, nearest
    first *)
Fixpoint trail (behind : list ascii) : list ascii :=
  match behind with
  | [] => []
  | a :: behind' =>
      if Ascii.eqb a cr || Ascii.eqb a newline then []
      else a :: trail behind'
  end.

(** [''.join(parts)] *)
Definition glue (parts : list string) : string :=
  fold_right append EmptyString parts.

(** The text of a piece in the input *)
Definition piece_text (p : Re.piece) : string :=
  match p with
  | Re.Lit c => String c EmptyString
  | Re.Hit m => Re.group m 0
  end.

(** The text of a piece in the output of a pass: a copied character, the
    statement the [try] block returns, or the statement as matched when
    the block raises *)
Definition rewritten (resolve : string -> string -> result string)
    (filepath : string) (p : Re.piece) : string :=
  match p with
  | Re.Lit c => String c EmptyString
  | Re.Hit m =>
      match replace_import_try resolve filepath m with
      | Ok s => s
      | Raise _ => Re.group m 0
      end
  end.

(** The line a piece makes a pass print: one for a statement on which the
    [try] block raises *)
Definition reported (resolve : string -> string -> result string)
    (filepath : string) (p : Re.piece) : list string :=
  match p with
  | Re.Lit _ => []
  | Re.Hit m =>
      match replace_import_try resolve filepath m with
      | Ok _ => []
      | Raise e => [error_line filepath m e]
      end
  end.

(** What a pass puts out for a piece *)
Definition piece_out (repl : Re.rematch -> Re.out) (p : Re.piece) : Re.out :=
  match p with
  | Re.Lit c => Re.out_text (String c EmptyString)
  | Re.Hit m => repl m
  end.

(** * Theorems *)

(** ** Strings *)

Lemma app_assoc_str (a b c : string) : (a ++ b) ++ c = a ++ (b ++ c).
Proof. induction a as [|x a IH]; simpl; [reflexivity|now rewrite IH]. Qed.

Lemma length_app_str (a b : string) :
  String.length (a ++ b) = String.length a + String.length b.
Proof. induction a as [|x a IH]; simpl; [reflexivity|now rewrite IH]. Qed.

Lemma take_app_length (a b : string) : Str.take (String.length a) (a ++ b) = a.
Proof. induction a as [|x a IH]; simpl; [now destruct b|now rewrite IH]. Qed.

Lemma drop_app_length (a b : string) : Str.drop (String.length a) (a ++ b) = b.
Proof. induction a as [|x a IH]; simpl; [now destruct b|exact IH]. Qed.

Lemma take_drop (n : nat) (s : string) : Str.take n s ++ Str.drop n s = s.
Proof.
  revert s. induction n as [|n IH]; intros [|x s]; simpl; try reflexivity.
  now rewrite IH.
Qed.

Lemma length_drop (n : nat) (s : string) :
  String.length (Str.drop n s) = String.length s - n.
Proof.
  revert s. induction n as [|n IH]; intros [|x s]; simpl; auto.
Qed.

Lemma startswith_app (p s : string) : Str.startswith (p ++ s) p = true.
Proof.
  induction p as [|x p IH]; simpl.
  - reflexivity.
  - now rewrite Ascii.eqb_refl.
Qed.

Lemma endswith_snoc (s : string) (a c : ascii) :
  Str.endswith (s ++ String a EmptyString) (String c EmptyString)
  = Ascii.eqb a c.
Proof.
  unfold Str.endswith. rewrite length_app_str. simpl String.length.
  replace (String.length s + 1 - 1) with (String.length s) by lia.
  rewrite drop_app_length.
  replace (1 <=? String.length s + 1)%nat with true
    by (symmetry; apply Nat.leb_le; lia).
  simpl. destruct (Ascii.eqb a c); reflexivity.
Qed.

Lemma endswith_char_inv (s : string) (c : ascii) :
  Str.endswith s (String c EmptyString) = true ->
  exists s', s = s' ++ String c EmptyString.
Proof.
  unfold Str.endswith. intros H. apply andb_prop in H as [_ H].
  apply String.eqb_eq in H.
  exists (Str.take (String.length s - 1) s).
  simpl String.length in H. rewrite <- H. symmetry. apply take_drop.
Qed.

Lemma rstrip_snoc_other (c a : ascii) (s : string) :
  Ascii.eqb a c = false ->
  Str.rstrip c (s ++ String a EmptyString) = s ++ String a EmptyString.
Proof.
  intros Ha. induction s as [|x s IH]; simpl.
  - now rewrite Ha.
  - rewrite IH. now destruct s.
Qed.

Lemma rstrip_snoc_same (c : ascii) (s : string) :
  Str.rstrip c (s ++ String c EmptyString) = Str.rstrip c s.
Proof.
  induction s as [|x s IH]; simpl.
  - now rewrite Ascii.eqb_refl.
  - now rewrite IH.
Qed.

Lemma rfind_sep_free (s : string) :
  sep_free s = true -> Str.rfind sep s = None.
Proof.
  induction s as [|x s IH]; simpl; [reflexivity|].
  intros H. apply andb_prop in H as [Hx Hs].
  rewrite (IH Hs). apply negb_true_iff in Hx. now rewrite Hx.
Qed.

Lemma rfind_app_sep (a name : string) :
  sep_free name = true ->
  Str.rfind sep (a ++ String sep name) = Some (String.length a).
Proof.
  intros Hname. induction a as [|x a IH]; simpl.
  - now rewrite (rfind_sep_free _ Hname).
  - now rewrite IH.
Qed.

Lemma replicate_has_only (n : nat) (c a : ascii) (x y : string) :
  Ascii.eqb a c = false -> x ++ String a y <> Str.replicate n c.
Proof.
  intros Ha. revert n. induction x as [|b x IH]; intros [|n]; simpl; try discriminate.
  - intros H. injection H as H _. subst. now rewrite Ascii.eqb_refl in Ha.
  - intros H. injection H as _ H. now apply IH in H.
Qed.

Lemma take_through (x : string) (c : ascii) (y : string) :
  Str.take (S (String.length x)) (x ++ String c y) = x ++ String c EmptyString.
Proof.
  induction x as [|b x IH]; simpl; [reflexivity|].
  f_equal. exact IH.
Qed.

(** ** [split] and [join] *)

Lemma split_cons (c : ascii) (s : string) :
  exists h t, Str.split c s = h :: t.
Proof.
  destruct s as [|a s]; simpl; [now eauto|].
  destruct (Ascii.eqb a c); [now eauto|].
  destruct (Str.split c s); eauto.
Qed.

Lemma split_app_sep (a b : string) :
  Str.split sep (a ++ String sep b) = (Str.split sep a ++ Str.split sep b)%list.
Proof.
  induction a as [|x a IH]; simpl.
  - reflexivity.
  - destruct (Ascii.eqb x sep); rewrite IH; [reflexivity|].
    destruct (split_cons sep a) as (h & t & ->). reflexivity.
Qed.

Lemma split_sep_free (s : string) :
  sep_free s = true -> Str.split sep s = [s].
Proof.
  induction s as [|x s IH]; simpl; [reflexivity|].
  intros H. apply andb_prop in H as [Hx Hs].
  apply negb_true_iff in Hx. now rewrite Hx, (IH Hs).
Qed.

Lemma split_parts_sep_free (s : string) :
  Forall (fun c => sep_free c = true) (Str.split sep s).
Proof.
  induction s as [|x s IH]; simpl.
  - now repeat constructor.
  - destruct (Ascii.eqb x sep) eqn:Hx.
    + now constructor.
    + destruct (Str.split sep s) as [|h t]; [repeat constructor; simpl; now rewrite Hx|].
      inversion IH; subst. constructor; [|assumption].
      simpl. now rewrite Hx.
Qed.

Lemma join_app (cs ds : list string) :
  cs <> [] -> ds <> [] ->
  Str.join sep (cs ++ ds)%list = Str.join sep cs ++ String sep (Str.join sep ds).
Proof.
  intros Hcs Hds. induction cs as [|x cs IH]; [now elim Hcs|].
  destruct cs as [|y cs].
  - destruct ds; [now elim Hds|reflexivity].
  - change (Str.join sep ((x :: y :: cs) ++ ds)%list)
      with (x ++ String sep (Str.join sep ((y :: cs) ++ ds)%list)).
    rewrite IH by discriminate.
    change (Str.join sep (x :: y :: cs))
      with (x ++ String sep (Str.join sep (y :: cs))).
    now rewrite app_assoc_str.
Qed.

Lemma split_join (cs : list string) :
  cs <> [] -> Forall (fun c => sep_free c = true) cs ->
  Str.split sep (Str.join sep cs) = cs.
Proof.
  intros Hne Hfree. induction cs as [|x cs IH]; [now elim Hne|].
  inversion Hfree as [|? ? Hx Hcs]; subst.
  destruct cs as [|y cs].
  - now apply split_sep_free.
  - change (Str.join sep (x :: y :: cs))
      with (x ++ String sep (Str.join sep (y :: cs))).
    rewrite split_app_sep, (split_sep_free _ Hx), IH by (auto; discriminate).
    reflexivity.
Qed.

(** ** [normpath] on absolute paths *)

Lemma clean_inv (c : string) :
  clean c = true ->
  String.eqb c EmptyString = false /\ String.eqb c "." = false
  /\ String.eqb c ".." = false /\ sep_free c = true.
Proof.
  unfold clean. intros H.
  apply andb_prop in H as [H H4]. apply andb_prop in H as [H H3].
  apply andb_prop in H as [H1 H2].
  rewrite negb_true_iff in H1, H2, H3. auto.
Qed.

Lemma norm_step_push (k : nat) (st : list string) (c : string) :
  clean c = true -> PosixPath.norm_step k st c = (st ++ [c])%list.
Proof.
  intros H. apply clean_inv in H as (H1 & H2 & H3 & _).
  unfold PosixPath.norm_step. now rewrite H1, H2, H3.
Qed.

Lemma fold_norm_push (k : nat) (l st : list string) :
  Forall (fun c => clean c = true) l ->
  fold_left (PosixPath.norm_step k) l st = (st ++ l)%list.
Proof.
  intros H. revert st. induction H as [|c l Hc _ IH]; intros st; simpl.
  - now rewrite app_nil_r.
  - rewrite (norm_step_push _ _ _ Hc), IH, <- app_assoc. reflexivity.
Qed.

Lemma fold_norm_empties (k n : nat) (st : list string) :
  fold_left (PosixPath.norm_step k) (repeat EmptyString n) st = st.
Proof. induction n as [|n IH]; simpl; [reflexivity|exact IH]. Qed.

Lemma Forall_last_clean (st : list string) :
  st <> [] -> Forall (fun c => clean c = true) st ->
  clean (last st EmptyString) = true
  /\ Forall (fun c => clean c = true) (removelast st).
Proof.
  intros Hne Hst.
  rewrite (app_removelast_last EmptyString Hne) in Hst.
  apply Forall_app in Hst as [Hinit Hlast].
  inversion Hlast; subst. auto.
Qed.

Lemma norm_step_keeps_clean (k : nat) (st : list string) (c : string) :
  1 <= k -> Forall (fun c => clean c = true) st -> sep_free c = true ->
  Forall (fun c => clean c = true) (PosixPath.norm_step k st c).
Proof.
  intros Hk Hst Hc. unfold PosixPath.norm_step.
  destruct (String.eqb c EmptyString) eqn:H1; [assumption|].
  destruct (String.eqb c ".") eqn:H2; [assumption|]. cbn [orb].
  destruct (String.eqb c "..") eqn:H3; cbn [negb orb].
  - replace (k =? 0)%nat with false by (symmetry; apply Nat.eqb_neq; lia).
    cbn [andb orb].
    destruct st as [|x st']; [assumption|].
    destruct (Forall_last_clean (x :: st')) as [Hlast Hinit];
      [discriminate|assumption|].
    apply clean_inv in Hlast as (_ & _ & Hlast & _).
    rewrite Hlast. cbn [List.length Nat.eqb negb andb]. exact Hinit.
  - apply Forall_app. split; [assumption|].
    constructor; [|constructor]. unfold clean. now rewrite H1, H2, H3, Hc.
Qed.

Lemma fold_norm_keeps_clean (k : nat) (l st : list string) :
  1 <= k -> Forall (fun c => sep_free c = true) l ->
  Forall (fun c => clean c = true) st ->
  Forall (fun c => clean c = true) (fold_left (PosixPath.norm_step k) l st).
Proof.
  intros Hk Hl. revert st. induction Hl as [|c l Hc _ IH]; intros st Hst; simpl.
  - assumption.
  - apply IH. now apply norm_step_keeps_clean.
Qed.

Lemma isabs_inv (p : string) :
  PosixPath.isabs p = true -> exists p', p = String sep p'.
Proof.
  unfold PosixPath.isabs. destruct p as [|a p]; [discriminate|].
  cbn [Str.startswith]. rewrite andb_true_r. intros H.
  apply Ascii.eqb_eq in H. subst a. now exists p.
Qed.

Lemma initial_slashes_abs (p : string) :
  PosixPath.initial_slashes (String sep p) = 1
  \/ PosixPath.initial_slashes (String sep p) = 2.
Proof.
  unfold PosixPath.initial_slashes.
  change (Str.startswith (String sep p) "/") with true. cbv iota.
  destruct (_ && _); auto.
Qed.

Lemma normpath_abs (p : string) :
  PosixPath.normpath (String sep p)
  = canonical (PosixPath.initial_slashes (String sep p))
              (PosixPath.norm_comps (String sep p)).
Proof.
  unfold PosixPath.normpath, canonical. cbn [Str.is_empty].
  destruct (initial_slashes_abs p) as [-> | ->]; reflexivity.
Qed.

Lemma norm_comps_clean (p : string) :
  Forall (fun c => clean c = true) (PosixPath.norm_comps (String sep p)).
Proof.
  unfold PosixPath.norm_comps. apply fold_norm_keeps_clean.
  - destruct (initial_slashes_abs p) as [-> | ->]; lia.
  - apply split_parts_sep_free.
  - constructor.
Qed.

(** ** Normalised absolute paths *)

Lemma split_replicate (k : nat) (s : string) :
  Str.split sep (Str.replicate k sep ++ s)
  = (repeat EmptyString k ++ Str.split sep s)%list.
Proof. induction k as [|k IH]; simpl; [reflexivity|now rewrite IH]. Qed.

Lemma clean_head (c : string) (cs : list string) :
  clean c = true ->
  exists a rest, Str.join sep (c :: cs) = String a rest /\ Ascii.eqb a sep = false.
Proof.
  intros H. apply clean_inv in H as (H1 & _ & _ & H4).
  destruct c as [|a c]; [discriminate|].
  simpl in H4. apply andb_prop in H4 as [Ha _]. apply negb_true_iff in Ha.
  destruct cs; simpl; eauto.
Qed.

Lemma clean_sep_free (cs : list string) :
  Forall (fun c => clean c = true) cs -> Forall (fun c => sep_free c = true) cs.
Proof.
  apply Forall_impl. intros c H. now apply clean_inv in H.
Qed.

Section Canonical.

Variable k : nat.
Variable cs : list string.
Hypothesis Hk : k = 1 \/ k = 2.
Hypothesis Hne : cs <> [].
Hypothesis Hclean : Forall (fun c => clean c = true) cs.

Lemma canonical_isabs : PosixPath.isabs (canonical k cs) = true.
Proof. destruct Hk as [-> | ->]; reflexivity. Qed.

Lemma canonical_initial_slashes :
  PosixPath.initial_slashes (canonical k cs) = k.
Proof.
  destruct cs as [|c cs']; [now elim Hne|].
  inversion Hclean as [|? ? Hc _]; subst.
  destruct (clean_head c cs' Hc) as (a & rest & Hjoin & Ha).
  unfold canonical. rewrite Hjoin.
  assert (Hsa : Ascii.eqb "/" a = false) by (now rewrite Ascii.eqb_sym).
  unfold PosixPath.initial_slashes, sep.
  destruct Hk as [-> | ->]; cbn [Str.replicate append Str.startswith];
    rewrite ?Ascii.eqb_refl, ?Hsa; reflexivity.
Qed.

Lemma canonical_split :
  Str.split sep (canonical k cs) = (repeat EmptyString k ++ cs)%list.
Proof.
  unfold canonical. rewrite split_replicate, split_join; auto.
  now apply clean_sep_free.
Qed.

Lemma canonical_norm_comps : PosixPath.norm_comps (canonical k cs) = cs.
Proof.
  unfold PosixPath.norm_comps.
  rewrite canonical_initial_slashes, canonical_split, fold_left_app.
  rewrite fold_norm_empties. now apply fold_norm_push.
Qed.

Lemma canonical_normpath : PosixPath.normpath (canonical k cs) = canonical k cs.
Proof.
  assert (Habs := canonical_isabs). apply isabs_inv in Habs as [p Hp].
  rewrite Hp at 1. rewrite normpath_abs, <- Hp.
  now rewrite canonical_initial_slashes, canonical_norm_comps.
Qed.

Lemma canonical_abspath (cwd : string) :
  PosixPath.abspath cwd (canonical k cs) = canonical k cs.
Proof.
  unfold PosixPath.abspath. now rewrite canonical_isabs, canonical_normpath.
Qed.

Lemma canonical_segments : PosixPath.segments (canonical k cs) = cs.
Proof.
  unfold PosixPath.segments. rewrite canonical_split, filter_app.
  replace (filter _ (repeat EmptyString k)) with (@nil string)
    by (destruct Hk as [-> | ->]; reflexivity).
  simpl. apply forallb_filter_id. apply forallb_forall. intros c Hc.
  rewrite Forall_forall in Hclean. apply Hclean in Hc.
  apply clean_inv in Hc as (H1 & _). now destruct c.
Qed.

End Canonical.

(** ** [dirname], [join] and [commonprefix] *)

Lemma dirname_of_file (x : string) (a : ascii) (name : string) :
  Ascii.eqb a sep = false -> sep_free name = true ->
  PosixPath.dirname ((x ++ String a EmptyString) ++ String sep name)
  = x ++ String a EmptyString.
Proof.
  intros Ha Hname. unfold PosixPath.dirname, Str.rfind_succ.
  rewrite (rfind_app_sep _ _ Hname), take_through.
  replace (Str.is_empty _) with false
    by (now destruct x).
  replace (String.eqb _ _) with false.
  - cbn [negb andb]. rewrite rstrip_snoc_same. now apply rstrip_snoc_other.
  - symmetry. apply String.eqb_neq. rewrite app_assoc_str.
    now apply replicate_has_only.
Qed.

Lemma join_step_plain (x : string) (a : ascii) (t : string) :
  Ascii.eqb a sep = false -> Str.startswith t "/" = false ->
  PosixPath.join_step (x ++ String a EmptyString) t
  = (x ++ String a EmptyString) ++ String sep t.
Proof.
  intros Ha Ht. unfold PosixPath.join_step.
  rewrite Ht, (endswith_snoc x a "/"). fold sep. rewrite Ha.
  replace (Str.is_empty _) with false by (now destruct x).
  reflexivity.
Qed.

Lemma sep_free_last (s : string) :
  s <> EmptyString -> sep_free s = true ->
  exists y a, s = y ++ String a EmptyString /\ Ascii.eqb a sep = false.
Proof.
  induction s as [|b s IH]; intros Hne Hfree; [now elim Hne|].
  simpl in Hfree. apply andb_prop in Hfree as [Hb Hs].
  destruct s as [|b' s'].
  - exists EmptyString, b. split; [reflexivity|now apply negb_true_iff].
  - destruct IH as (y & a & Hy & Ha); [discriminate|assumption|].
    exists (String b y), a. simpl. now rewrite <- Hy.
Qed.

Lemma sep_free_head (s : string) :
  sep_free s = true -> Str.startswith s "/" = false.
Proof.
  destruct s as [|b s]; [reflexivity|]. cbn [sep_free Str.startswith]. intros H.
  apply andb_prop in H as [Hb _]. apply negb_true_iff in Hb.
  rewrite Ascii.eqb_sym. fold sep. now rewrite Hb.
Qed.

(** [join(a, *l)] on plain components is [sep.join] *)
Lemma join_components (l : list string) (x : string) (a : ascii) :
  Ascii.eqb a sep = false ->
  Forall (fun c => c <> EmptyString /\ sep_free c = true) l ->
  PosixPath.join (x ++ String a EmptyString) l
  = Str.join sep ((x ++ String a EmptyString) :: l).
Proof.
  intros Ha Hl. revert x a Ha.
  induction Hl as [|c l [Hc Hfree] _ IH]; intros x a Ha; [reflexivity|].
  unfold PosixPath.join. cbn [fold_left].
  rewrite join_step_plain by (auto using sep_free_head).
  destruct (sep_free_last c Hc Hfree) as (y & b & -> & Hb).
  replace ((x ++ String a EmptyString) ++ String sep (y ++ String b EmptyString))
    with (((x ++ String a EmptyString) ++ String sep y) ++ String b EmptyString)
    by (rewrite !app_assoc_str; reflexivity).
  fold (PosixPath.join
          (((x ++ String a EmptyString) ++ String sep y) ++ String b EmptyString) l).
  rewrite IH by assumption.
  destruct l as [|d l]; cbn [Str.join]; rewrite !app_assoc_str; reflexivity.
Qed.

Lemma commonprefix_app (base l1 l2 : list string) :
  PosixPath.commonprefix (base ++ l1) (base ++ l2)
  = (base ++ PosixPath.commonprefix l1 l2)%list.
Proof.
  induction base as [|c base IH]; simpl; [reflexivity|].
  now rewrite String.eqb_refl, IH.
Qed.

Lemma skipn_length_app {A} (l m : list A) : skipn (List.length l) (l ++ m) = m.
Proof. induction l as [|x l IH]; simpl; [reflexivity|exact IH]. Qed.

Lemma canonical_last (k : nat) (cs : list string) :
  cs <> [] -> Forall (fun c => clean c = true) cs ->
  exists x a, canonical k cs = x ++ String a EmptyString
              /\ Ascii.eqb a sep = false.
Proof.
  intros Hne Hclean.
  destruct (Forall_last_clean cs Hne Hclean) as [Hlast _].
  apply clean_inv in Hlast as (H1 & _ & _ & H4).
  destruct (sep_free_last (last cs EmptyString)) as (y & a & Hy & Ha);
    [intros H; rewrite H in H1; discriminate|assumption|].
  rewrite (app_removelast_last EmptyString Hne), Hy. unfold canonical.
  destruct (removelast cs) as [|c0 init] eqn:Hinit.
  - exists (Str.replicate k sep ++ y), a. split; [|assumption].
    cbn [app Str.join]. now rewrite app_assoc_str.
  - exists (Str.replicate k sep ++ Str.join sep (c0 :: init) ++ String sep y), a.
    split; [|assumption].
    rewrite join_app by discriminate. cbn [Str.join].
    rewrite !app_assoc_str. reflexivity.
Qed.

Lemma canonical_extend (k : nat) (cs ds : list string) :
  cs <> [] -> ds <> [] ->
  canonical k cs ++ String sep (Str.join sep ds) = canonical k (cs ++ ds).
Proof.
  intros Hcs Hds. unfold canonical.
  now rewrite join_app, app_assoc_str.
Qed.

(** ** The source root *)

Lemma join_src (cwd : string) :
  PosixPath.isabs cwd = true ->
  exists q x, PosixPath.join cwd ["src"] = String sep q
              /\ PosixPath.join cwd ["src"] = x ++ String sep "src".
Proof.
  intros Habs. destruct (isabs_inv _ Habs) as [cwd' ->].
  unfold PosixPath.join, PosixPath.join_step. cbn [fold_left].
  change (Str.startswith "src" "/") with false. cbv iota.
  cbn [Str.is_empty orb].
  destruct (Str.endswith (String sep cwd') "/") eqn:Hend.
  - exists (cwd' ++ "src"). apply endswith_char_inv in Hend as [s' Hs'].
    exists s'. split; [reflexivity|].
    rewrite Hs', app_assoc_str. reflexivity.
  - exists (cwd' ++ "/src"), (String sep cwd'). split; reflexivity.
Qed.

Lemma SRC_ROOT_canonical (cwd : string) :
  PosixPath.isabs cwd = true ->
  exists k cs,
    (k = 1 \/ k = 2) /\ Forall (fun c => clean c = true) cs
    /\ SRC_ROOT cwd = canonical k (cs ++ ["src"]).
Proof.
  intros Habs. destruct (join_src cwd Habs) as (q & x & Hq & Hx).
  unfold SRC_ROOT, PosixPath.abspath.
  change (PosixPath.isabs "src") with false. cbv iota.
  rewrite Hq, normpath_abs.
  exists (PosixPath.initial_slashes (String sep q)).
  exists (fold_left (PosixPath.norm_step (PosixPath.initial_slashes (String sep q)))
            (Str.split sep x) []).
  split; [apply initial_slashes_abs|]. split.
  - apply fold_norm_keeps_clean.
    + destruct (initial_slashes_abs q) as [-> | ->]; lia.
    + apply split_parts_sep_free.
    + constructor.
  - f_equal. unfold PosixPath.norm_comps. rewrite <- Hq at 2. rewrite Hx.
    rewrite split_app_sep, fold_left_app.
    change (Str.split sep "src") with ["src"]. cbn [fold_left].
    now apply norm_step_push.
Qed.

(** ** Resolving from a file under the source root *)

(** The resolver on a file in the directory [from_comps] under the source
    root and a target [to_comps] under it, when the two diverge at their
    first component. *)
Lemma get_relative_path_under_root
    (cwd : string) (from_comps to_comps : list string) (file : string)
    (f t : string) (from_rest to_rest : list string) :
  PosixPath.isabs cwd = true ->
  from_comps = f :: from_rest -> to_comps = t :: to_rest ->
  String.eqb f t = false ->
  Forall (fun c => clean c = true) from_comps ->
  Forall (fun c => clean c = true) to_comps ->
  sep_free file = true ->
  get_relative_path cwd
    (SRC_ROOT cwd ++ String sep (Str.join sep from_comps) ++ String sep file)
    (Str.join sep to_comps)
  = Ok (Str.join sep (repeat ".." (List.length from_comps) ++ to_comps)%list).
Proof.
  intros Habs Hfrom Hto Hft Hcf Hct Hfile.
  destruct (SRC_ROOT_canonical cwd Habs) as (k & cs & Hk & Hcs & HR).
  set (base := (cs ++ ["src"])%list) in *.
  assert (Hbase : Forall (fun c => clean c = true) base).
  { apply Forall_app. split; [assumption|]. now repeat constructor. }
  assert (Hbne : base <> []) by (unfold base; now destruct cs).
  assert (Hfne : from_comps <> []) by (now subst).
  assert (Htne : to_comps <> []) by (now subst).
  (* the directory of the file *)
  assert (Hdir : PosixPath.dirname
                   (SRC_ROOT cwd ++ String sep (Str.join sep from_comps)
                      ++ String sep file)
                 = canonical k (base ++ from_comps)).
  { rewrite HR.
    change (String sep (Str.join sep from_comps) ++ String sep file)
      with (String sep (Str.join sep from_comps ++ String sep file)).
    replace (canonical k base ++ String sep (Str.join sep from_comps ++ String sep file))
      with ((canonical k base ++ String sep (Str.join sep from_comps)) ++ String sep file)
      by (now rewrite app_assoc_str).
    rewrite canonical_extend by assumption.
    destruct (canonical_last k (base ++ from_comps)) as (x & a & Hx & Ha).
    { now destruct base. }
    { now apply Forall_app. }
    rewrite Hx. now apply dirname_of_file. }
  (* the target *)
  assert (Htarget : PosixPath.join (SRC_ROOT cwd) [Str.join sep to_comps]
                    = canonical k (base ++ to_comps)).
  { rewrite HR. destruct (canonical_last k base Hbne Hbase) as (x & a & Hx & Ha).
    unfold PosixPath.join. cbn [fold_left].
    rewrite Hx, join_step_plain; [|assumption|].
    - rewrite <- Hx. now apply canonical_extend.
    - subst to_comps. inversion Hct as [|? ? Ht _]; subst.
      destruct (clean_head t to_rest Ht) as (b & rest & -> & Hb).
      cbn [Str.startswith]. rewrite Ascii.eqb_sym. fold sep. now rewrite Hb. }
  unfold get_relative_path. rewrite Hdir, Htarget.
  unfold PosixPath.relpath.
  replace (Str.is_empty (canonical k (base ++ to_comps))) with false
    by (destruct Hk as [-> | ->]; reflexivity).
  rewrite !canonical_abspath, !canonical_segments;
    try (apply Forall_app; now split); try (now destruct base); try assumption.
  rewrite commonprefix_app. subst from_comps to_comps.
  cbn [PosixPath.commonprefix]. rewrite Hft, app_nil_r.
  rewrite skipn_length_app, length_app.
  replace (List.length base + List.length (f :: from_rest) - List.length base)
    with (List.length (f :: from_rest)) by lia.
  cbn [List.length repeat app rbind].
  assert (Hplain : Forall (fun c => c <> EmptyString /\ sep_free c = true)
                     (repeat ".." (List.length from_rest) ++ t :: to_rest)).
  { apply Forall_app. split.
    - apply Forall_forall. intros c Hc. apply repeat_spec in Hc. subst c.
      split; [discriminate|reflexivity].
    - eapply Forall_impl; [|exact Hct]. intros c Hc.
      apply clean_inv in Hc as (H1 & _ & _ & H4). split; [|assumption].
      intros ->. discriminate. }
  pose proof (join_components _ "." "."%char eq_refl Hplain) as Hjoin.
  change ("." ++ String "."%char EmptyString) with ".." in Hjoin.
  rewrite Hjoin.
  now destruct (repeat ".." (List.length from_rest) ++ t :: to_rest)%list.
Qed.

(** C3.  From a file at [features/capture/RecordingControls.tsx] under the
    source root, wherever the tool is started, the resolver gives
    [../../components/layout/Sidebar] for [Sidebar], which MAPPING places
    at [components/layout/Sidebar]. *)
Theorem resolver_example (cwd : string) :
  PosixPath.isabs cwd = true ->
  dict_get MAPPING "Sidebar" = Some "components/layout/Sidebar"
  /\ get_relative_path cwd
       (SRC_ROOT cwd ++ "/features/capture/RecordingControls.tsx")
       "components/layout/Sidebar"
     = Ok "../../components/layout/Sidebar".
Proof.
  intros Habs. split; [reflexivity|].
  apply (get_relative_path_under_root cwd
           ["features"; "capture"] ["components"; "layout"; "Sidebar"]
           "RecordingControls.tsx" "features" "components"
           ["capture"] ["layout"; "Sidebar"]); try reflexivity; try assumption.
  - now repeat constructor.
  - now repeat constructor.
Qed.

Lemma resolver_example_witness :
  PosixPath.isabs "/home/dev/nofriction-meetings" = true
  /\ dict_get MAPPING "Sidebar" = Some "components/layout/Sidebar"
  /\ get_relative_path "/home/dev/nofriction-meetings"
       (SRC_ROOT "/home/dev/nofriction-meetings"
          ++ "/features/capture/RecordingControls.tsx")
       "components/layout/Sidebar"
     = Ok "../../components/layout/Sidebar".
Proof.
  split; [reflexivity|].
  apply (resolver_example "/home/dev/nofriction-meetings"). reflexivity.
Defined.

(** ** The leading dot *)

(** The resolver always returns, and what it returns starts with a dot. *)
Lemma normpath_not_empty (p : string) : Str.is_empty (PosixPath.normpath p) = false.
Proof.
  unfold PosixPath.normpath. destruct (Str.is_empty p); [reflexivity|].
  destruct (Str.is_empty (_ ++ _)) eqn:H; [reflexivity|exact H].
Qed.

Lemma get_relative_path_returns (cwd from_file to_target : string) :
  exists rel, get_relative_path cwd from_file to_target = Ok rel
              /\ Str.startswith rel "." = true.
Proof.
  unfold get_relative_path, PosixPath.relpath.
  assert (Hroot : Str.is_empty (SRC_ROOT cwd) = false) by apply normpath_not_empty.
  assert (Htarget : Str.is_empty (PosixPath.join (SRC_ROOT cwd) [to_target]) = false).
  { unfold PosixPath.join, PosixPath.join_step. cbn [fold_left].
    destruct (SRC_ROOT cwd) as [|a r]; [discriminate|].
    destruct (Str.startswith to_target "/") eqn:Hs.
    - now destruct to_target.
    - now destruct (_ || _). }
  rewrite Htarget.
  match goal with
  | |- context [match ?l with [] => _ | a :: p => _ end] => destruct l
  end; cbn [rbind].
  - now exists ".".
  - match goal with
    | |- context [Str.startswith ?r "."] => destruct (Str.startswith r ".") eqn:Hdot
    end; cbn [negb]; eauto.
Qed.

(** C9.  The code at a file that lies in a directory named like the
    component it imports: [relpath] gives [.], which starts with a dot and
    is returned as it is, beginning with neither [./] nor [../]; one
    directory further down the result is [..]. *)
Theorem get_relative_path_bare_dot :
  dict_get MAPPING "Settings" = Some "features/settings/Settings"
  /\ get_relative_path "/repo"
       "/repo/src/features/settings/Settings/index.tsx"
       "features/settings/Settings" = Ok "."
  /\ Str.startswith "." "./" = false
  /\ Str.startswith "." "../" = false
  /\ get_relative_path "/repo"
       "/repo/src/features/settings/Settings/forms/index.tsx"
       "features/settings/Settings" = Ok ".."
  /\ Str.startswith ".." "./" = false
  /\ Str.startswith ".." "../" = false.
Proof.
  split; [reflexivity|].
  split; [vm_compute; reflexivity|]. split; [reflexivity|].
  split; [reflexivity|].
  split; [vm_compute; reflexivity|]. split; reflexivity.
Qed.

(** ** The location map *)

Lemma dict_get_key (d : list (string * string)) (k v : string) :
  dict_get d k = Some v -> In k (map fst d).
Proof.
  induction d as [|[k' v'] d IH]; simpl; [discriminate|].
  destruct (String.eqb_spec k' k) as [->|_]; auto.
Qed.

Lemma MAPPING_keys_bare :
  forallb (fun k => negb (has_source_ext k)) (map fst MAPPING) = true.
Proof. vm_compute. reflexivity. Qed.

Lemma MAPPING_misses_ext (name : string) :
  has_source_ext name = true -> dict_get MAPPING name = None.
Proof.
  intros Hext.
  destruct (dict_get MAPPING name) as [v|] eqn:Hget; [|reflexivity].
  apply dict_get_key in Hget.
  pose proof MAPPING_keys_bare as Hbare.
  rewrite forallb_forall in Hbare.
  apply Hbare in Hget. rewrite Hext in Hget. discriminate.
Qed.

Lemma secondary_lookup_misses (path_str : string) :
  dict_get MAPPING (lookup_name path_str) = None ->
  dict_get MAPPING (PosixPath.basename path_str) = None.
Proof.
  unfold lookup_name.
  destruct (has_source_ext (PosixPath.basename path_str)) eqn:Hext.
  - intros _. now apply MAPPING_misses_ext.
  - auto.
Qed.

(** C10.  Whenever the first lookup of [replace_import] misses, the lookup
    of the secondary "components/" branch misses too, because no key of
    MAPPING carries a source extension; so [replace_import] is the same
    function as [replace_import] with that branch removed. *)
Theorem replace_import_secondary_branch_dead
    (resolve : string -> string -> result string) (filepath : string)
    (m : Re.rematch) :
  (dict_get MAPPING (lookup_name (Re.group m 3)) = None ->
   dict_get MAPPING (PosixPath.basename (Re.group m 3)) = None)
  /\ replace_import_with resolve filepath m
     = replace_import_primary resolve filepath m.
Proof.
  split; [apply secondary_lookup_misses|].
  unfold replace_import_with, replace_import_primary.
  replace (replace_import_try resolve filepath m)
    with (replace_import_try_primary resolve filepath m); [reflexivity|].
  unfold replace_import_try, replace_import_try_primary.
  destruct (negb (Str.startswith (Re.group m 3) ".")); [reflexivity|].
  destruct (Str.endswith (Re.group m 3) ".css").
  { now destruct (_ && _). }
  pose proof (secondary_lookup_misses (Re.group m 3)) as Hdead.
  unfold lookup_name, has_source_ext in Hdead.
  destruct (dict_get MAPPING _) as [target|]; [reflexivity|].
  rewrite (Hdead eq_refl).
  now destruct (Str.contains _ _).
Qed.

(** ** The substituted statement *)

(** What [replace_import] returns when the first lookup hits and the
    resolver gives [new_rel]: group 1, the quote, [new_rel], the quote and
    group 4. *)
Lemma replace_import_substitutes
    (resolve : string -> string -> result string) (filepath : string)
    (m : Re.rematch) (target new_rel : string) :
  Str.startswith (Re.group m 3) "." = true ->
  Str.endswith (Re.group m 3) ".css" = false ->
  dict_get MAPPING (lookup_name (Re.group m 3)) = Some target ->
  resolve filepath target = Ok new_rel ->
  replace_import_with resolve filepath m
  = (Re.group m 1 ++ Re.group m 2 ++ new_rel ++ Re.group m 2 ++ Re.group m 4, []).
Proof.
  intros Hdot Hcss Hget Hres.
  unfold replace_import_with, replace_import_try.
  rewrite Hdot, Hcss. cbn [negb].
  unfold lookup_name, has_source_ext in Hget. rewrite Hget, Hres.
  reflexivity.
Qed.

(** C2.  The code at a statement it substitutes: the replacement is group
    1, the quote, the new path, the quote again and then group 4
    ([replace_import_substitutes]), and group 4 already starts with the
    closing quote; the output carries one quote more than the claim
    allows. *)
Theorem substituted_statement_gains_quote :
  transform "/repo" "/repo/src/App.tsx"
    "import Sidebar from './components/Sidebar';"
  = Ok ("import Sidebar from './components/layout/Sidebar'';", [])
  /\ replace_import "/repo" "/repo/src/App.tsx"
       (statement "import Sidebar from " "'" "./components/Sidebar" "';")
     = ("import Sidebar from " ++ "'" ++ "./components/layout/Sidebar"
          ++ "'" ++ "';", []).
Proof. split; vm_compute; reflexivity. Qed.

(** C4.  The code at the dynamic import of the claim: the resolver does
    give the sibling reference [./Settings], but the statement comes back
    with a second closing quote, not byte-identical. *)
Theorem dynamic_sibling_import_gains_quote :
  let before := "import(" ++ quoted dquote "./Settings" ++ ")" in
  let after := "import(" ++ quoted dquote "./Settings" ++ String dquote ")" in
  dict_get MAPPING "Settings" = Some "features/settings/Settings"
  /\ get_relative_path "/repo" "/repo/src/features/settings/FullSettings.tsx"
       "features/settings/Settings" = Ok "./Settings"
  /\ transform "/repo" "/repo/src/features/settings/FullSettings.tsx" before
     = Ok (after, [])
  /\ after <> before.
Proof.
  cbv zeta. split; [reflexivity|]. split; [vm_compute; reflexivity|].
  split; [vm_compute; reflexivity|]. vm_compute. discriminate.
Qed.

(** ** The guard of the depth pattern *)

(** A literal does not match where the text ahead does not start with it. *)
Lemma rmatch_lit_miss (s : string) (st : Re.mstate)
    (k : Re.mstate -> option Re.mstate) :
  Str.startswith (Re.ms_ahead st) s = false -> Re.rmatch (Re.RLit s) st k = None.
Proof.
  revert st. induction s as [|c s IH]; intros st; [discriminate|].
  cbn [Re.RLit Re.rmatch]. destruct (Re.ms_ahead st) as [|a rest] eqn:Hahead.
  - reflexivity.
  - cbn [Str.startswith]. rewrite Ascii.eqb_sym.
    destruct (Ascii.eqb a c); [|reflexivity].
    cbn [andb]. intros H. now apply IH.
Qed.

Lemma match_at_depth_guarded (folder : string) (behind : list ascii)
    (ahead : string) :
  negb (Str.startswith ahead ("../" ++ folder))
  || Re.behind_is lookbehind behind = true ->
  Re.match_at false (depth_pattern folder) behind ahead = None.
Proof.
  intros H. unfold Re.match_at, depth_pattern. cbn [Re.rmatch Re.ms_behind].
  fold lookbehind. destruct (Re.behind_is _ behind); [reflexivity|].
  rewrite orb_false_r in H. apply negb_true_iff in H.
  now rewrite rmatch_lit_miss.
Qed.

(** A pass over a text in which every [../folder] is already behind a
    [../] changes nothing. *)
Lemma sub_loop_guarded (folder : string) (repl : Re.rematch -> Re.out)
    (ahead : string) (behind : list ascii) :
  guarded folder behind ahead = true ->
  Re.sub_loop (depth_pattern folder) repl behind ahead 0 = (ahead, []).
Proof.
  revert behind. induction ahead as [|c rest IH]; intros behind Hg.
  - cbn [Re.sub_loop]. now rewrite match_at_depth_guarded.
  - cbn [guarded] in Hg. apply andb_prop in Hg as [Hhere Hrest].
    cbn [Re.sub_loop]. rewrite (match_at_depth_guarded _ _ _ Hhere).
    now rewrite (IH _ Hrest).
Qed.

(** The depth correction leaves a corrected text alone: when every
    [../lib], [../hooks], ... of the content already follows a [../], the
    six substitutions return the content. *)
Lemma depth_correction_guarded (content : string) :
  forallb (fun folder => guarded folder [] content) FOLDERS = true ->
  depth_correction content = content.
Proof.
  unfold depth_correction. generalize FOLDERS as folders.
  induction folders as [|f folders IH]; intros H; [reflexivity|].
  cbn [forallb] in H. apply andb_prop in H as [Hf Hrest].
  assert (Hpass : Re.sub_str (depth_pattern f) ("../../" ++ f) content = content)
    by (unfold Re.sub_str, Re.sub; now rewrite sub_loop_guarded).
  cbn [fold_left]. rewrite Hpass. now apply IH.
Qed.

(** ** One depth pass, position by position *)

Lemma startswith_split (a s : string) :
  Str.startswith a s = true -> a = s ++ Str.drop (String.length s) a.
Proof.
  revert a. induction s as [|c s IH]; intros a H; [reflexivity|].
  destruct a as [|b a]; [discriminate|].
  cbn [Str.startswith] in H. apply andb_prop in H as [Hc Hs].
  apply Ascii.eqb_eq in Hc. subst b. cbn. f_equal. now apply IH.
Qed.

Lemma rmatch_lit_hit (s : string) (st : Re.mstate)
    (k : Re.mstate -> option Re.mstate) :
  Str.startswith (Re.ms_ahead st) s = true ->
  Re.rmatch (Re.RLit s) st k
  = k (Re.MState (rev (list_ascii_of_string s) ++ Re.ms_behind st)
                 (Str.drop (String.length s) (Re.ms_ahead st))
                 (Re.ms_groups st)).
Proof.
  revert st. induction s as [|c s IH]; intros [behind ahead groups] H.
  - reflexivity.
  - cbn [Re.ms_ahead] in H. destruct ahead as [|a rest]; [discriminate|].
    cbn [Str.startswith] in H. apply andb_prop in H as [Hc Hs].
    apply Ascii.eqb_eq in Hc. subst a.
    cbn [Re.RLit Re.rmatch Re.ms_ahead]. rewrite Ascii.eqb_refl.
    unfold Re.advance. rewrite IH by exact Hs.
    cbn [Re.ms_behind Re.ms_ahead Re.ms_groups list_ascii_of_string rev
         String.length Str.drop].
    now rewrite <- app_assoc.
Qed.

Lemma match_at_depth_hit (folder : string) (behind : list ascii)
    (ahead : string) :
  Re.behind_is lookbehind behind = false ->
  Str.startswith ahead ("../" ++ folder) = true ->
  Re.match_at false (depth_pattern folder) behind ahead
  = Some (Re.Match ("../" ++ folder) []).
Proof.
  intros Hb Hs. unfold Re.match_at, depth_pattern.
  cbn [Re.rmatch Re.ms_behind]. fold lookbehind. rewrite Hb.
  rewrite rmatch_lit_hit by exact Hs. cbn [andb].
  unfold Re.consumed. cbn [Re.ms_ahead Re.ms_groups].
  rewrite (startswith_split _ _ Hs) at 1 3.
  rewrite length_app_str, length_drop.
  f_equal. f_equal.
  replace (_ - _) with (String.length ("../" ++ folder)).
  - apply take_app_length.
  - pose proof (startswith_split _ _ Hs) as E.
    apply (f_equal String.length) in E. rewrite length_app_str, length_drop in E.
    lia.
Qed.

(** The two cases of a pass at a position that no earlier match covers *)
Lemma depth_pass_hit (folder : string) (behind : list ascii) (c : ascii)
    (rest : string) :
  Re.behind_is lookbehind behind = false ->
  Str.startswith (String c rest) ("../" ++ folder) = true ->
  Re.sub_loop (depth_pattern folder) (depth_repl folder) behind (String c rest) 0
  = Re.out_cat (Re.out_text ("../../" ++ folder))
      (Re.sub_loop (depth_pattern folder) (depth_repl folder)
         (c :: behind) rest (2 + String.length folder)).
Proof.
  intros Hb Hs. cbn [Re.sub_loop].
  rewrite (match_at_depth_hit _ _ _ Hb Hs). reflexivity.
Qed.

Lemma depth_pass_miss (folder : string) (behind : list ascii) (c : ascii)
    (rest : string) :
  negb (Str.startswith (String c rest) ("../" ++ folder))
  || Re.behind_is lookbehind behind = true ->
  Re.sub_loop (depth_pattern folder) (depth_repl folder) behind (String c rest) 0
  = Re.out_cat (Re.out_text (String c EmptyString))
      (Re.sub_loop (depth_pattern folder) (depth_repl folder)
         (c :: behind) rest 0).
Proof.
  intros H. cbn [Re.sub_loop]. now rewrite (match_at_depth_guarded _ _ _ H).
Qed.

Lemma depth_pass_end (folder : string) (behind : list ascii) (skip : nat) :
  Re.sub_loop (depth_pattern folder) (depth_repl folder) behind EmptyString skip
  = Re.out_text EmptyString.
Proof.
  destruct skip; cbn [Re.sub_loop]; [|reflexivity].
  now rewrite match_at_depth_guarded.
Qed.

Lemma dot_free_head (a : ascii) (u : string) :
  dot_free (String a u) = true -> Ascii.eqb "." a = false /\ dot_free u = true.
Proof.
  cbn [dot_free]. intros H. apply andb_prop in H as [Ha Hu].
  apply negb_true_iff in Ha. rewrite Ascii.eqb_sym. auto.
Qed.

(** What a pass writes without a dot, it has read. *)
Lemma pass_text_dot_free (folder u : string) :
  dot_free u = true ->
  forall (ahead : string) (behind : list ascii),
    Str.startswith (pass_text folder behind ahead 0) u = true ->
    Str.startswith ahead u = true.
Proof.
  induction u as [|a u IH]; intros Hu ahead behind H; [reflexivity|].
  apply dot_free_head in Hu as [Ha Hu].
  unfold pass_text in H. destruct ahead as [|c rest].
  - rewrite depth_pass_end in H. discriminate.
  - destruct (Re.behind_is lookbehind behind) eqn:Hb;
      [|destruct (Str.startswith (String c rest) ("../" ++ folder)) eqn:Hs].
    + rewrite depth_pass_miss in H by (rewrite Hb; apply orb_true_r).
      cbn [Re.out_cat Re.out_text fst append Str.startswith] in H |- *.
      apply andb_prop in H as [Hc H]. rewrite Hc. now apply (IH Hu) in H.
    + rewrite depth_pass_hit in H by assumption.
      cbn [Re.out_cat Re.out_text fst append Str.startswith] in H.
      rewrite Ascii.eqb_sym, Ha in H. discriminate.
    + rewrite depth_pass_miss in H by (now rewrite Hs).
      cbn [Re.out_cat Re.out_text fst append Str.startswith] in H |- *.
      apply andb_prop in H as [Hc H]. rewrite Hc. now apply (IH Hu) in H.
Qed.

Lemma pass_text_end (folder : string) (behind : list ascii) (skip : nat) :
  pass_text folder behind EmptyString skip = EmptyString.
Proof. unfold pass_text. now rewrite depth_pass_end. Qed.

(** Where a pass copies a character, a [../folder] in its output was
    already in its input. *)
Lemma copied_prefix (g f : string) (c : ascii) (rest : string)
    (behind : list ascii) :
  dot_free f = true ->
  Str.startswith (String c (pass_text g (c :: behind) rest 0)) ("../" ++ f) = true ->
  Str.startswith (String c rest) ("../" ++ f) = true.
Proof.
  intros Hf H.
  cbn [append Str.startswith] in H |- *.
  apply andb_prop in H as [Hc H]. rewrite Hc. cbn [andb].
  destruct rest as [|c2 rest2]; [now rewrite pass_text_end in H|].
  unfold pass_text in H.
  assert (Hslash : dot_free (String "/" f) = true) by exact Hf.
  destruct (Re.behind_is lookbehind (c :: behind)) eqn:Hb;
    [|destruct (Str.startswith (String c2 rest2) ("../" ++ g)) eqn:Hs].
  - rewrite depth_pass_miss in H by (rewrite Hb; apply orb_true_r).
    cbn [Re.out_cat Re.out_text fst append Str.startswith] in H |- *.
    apply andb_prop in H as [Hc2 H]. rewrite Hc2.
    now apply (pass_text_dot_free g _ Hslash) in H.
  - rewrite depth_pass_hit in H by assumption.
    cbn [Re.out_cat Re.out_text fst append Str.startswith] in H.
    apply andb_prop in H as [_ H]. apply andb_prop in H as [H _].
    discriminate H.
  - rewrite depth_pass_miss in H by (now rewrite Hs).
    cbn [Re.out_cat Re.out_text fst append Str.startswith] in H |- *.
    apply andb_prop in H as [Hc2 H]. rewrite Hc2.
    now apply (pass_text_dot_free g _ Hslash) in H.
Qed.

(** ** Guarded texts *)

Lemma guarded_dot_free (f u y : string) (b : list ascii) :
  dot_free u = true ->
  guarded f b (u ++ y) = guarded f (rev (list_ascii_of_string u) ++ b) y.
Proof.
  revert b. induction u as [|a u IH]; intros b Hu; [reflexivity|].
  apply dot_free_head in Hu as [Ha Hu].
  cbn [append guarded Str.startswith]. rewrite Ha. cbn [andb negb orb].
  rewrite IH by exact Hu. cbn [list_ascii_of_string rev].
  now rewrite <- app_assoc.
Qed.

Lemma guarded_updir (f z : string) (b : list ascii) :
  guarded f b ("../" ++ z)
  = (negb (Str.startswith z f) || Re.behind_is lookbehind b)
    && guarded f (lookbehind ++ b) z.
Proof.
  cbn [append guarded Str.startswith].
  rewrite !Ascii.eqb_refl.
  change (Ascii.eqb "." "/") with false. cbn [andb negb orb].
  reflexivity.
Qed.

Lemma behind_is_app (p b : list ascii) : Re.behind_is p (p ++ b) = true.
Proof.
  induction p as [|c p IH]; [reflexivity|].
  cbn [app Re.behind_is]. now rewrite Ascii.eqb_refl.
Qed.

Lemma behind_is_firstn (b b' : list ascii) :
  firstn 3 b = firstn 3 b' ->
  Re.behind_is lookbehind b = Re.behind_is lookbehind b'.
Proof.
  unfold lookbehind. cbn [list_ascii_of_string rev app].
  destruct b as [|x1 [|x2 [|x3 b]]], b' as [|y1 [|y2 [|y3 b']]];
    cbn [firstn Re.behind_is]; intros H; try discriminate H;
    inversion H; subst; reflexivity.
Qed.

(** The replacement text is guarded wherever it is written. *)
Lemma guarded_replacement (f g y : string) (b : list ascii) :
  word f = true -> word g = true ->
  guarded f b (("../../" ++ g) ++ y)
  = guarded f (rev (list_ascii_of_string ("../../" ++ g)) ++ b) y.
Proof.
  intros Hf Hg. unfold word in Hf, Hg.
  apply andb_prop in Hf as [Hf1 Hf2]. apply andb_prop in Hg as [_ Hg].
  destruct f as [|a f]; [discriminate|].
  apply dot_free_head in Hf2 as [Ha _].
  change (("../../" ++ g) ++ y) with ("../" ++ ("../" ++ (g ++ y))).
  rewrite guarded_updir.
  replace (Str.startswith ("../" ++ (g ++ y)) (String a f)) with false
    by (cbn [append Str.startswith]; rewrite Ascii.eqb_sym, Ha; reflexivity).
  cbn [negb orb andb].
  rewrite guarded_updir, behind_is_app, orb_true_r. cbn [andb].
  rewrite guarded_dot_free by exact Hg.
  f_equal. unfold lookbehind.
  change (list_ascii_of_string ("../../" ++ g))
    with (list_ascii_of_string "../" ++ list_ascii_of_string "../"
            ++ list_ascii_of_string g)%list.
  rewrite !rev_app_distr, <- !app_assoc. reflexivity.
Qed.

Lemma firstn_long_prefix {A} (n : nat) (p x y : list A) :
  n <= List.length p -> firstn n (p ++ x) = firstn n (p ++ y).
Proof.
  intros H. rewrite !firstn_app.
  replace (n - List.length p) with 0 by lia. reflexivity.
Qed.

Lemma take_startswith (a s : string) :
  Str.startswith a s = true -> Str.take (String.length s) a = s.
Proof.
  intros H. rewrite (startswith_split _ _ H) at 1. apply take_app_length.
Qed.

Lemma firstn_cons_agree {A} (c : A) (l l' : list A) :
  firstn 3 l = firstn 3 l' -> firstn 3 (c :: l) = firstn 3 (c :: l').
Proof.
  intros H.
  change (c :: firstn 2 l = c :: firstn 2 l'). f_equal.
  assert (E : forall m : list A, firstn 2 m = firstn 2 (firstn 3 m))
    by (intros m; now rewrite firstn_firstn).
  now rewrite (E l), (E l'), H.
Qed.

Lemma pass_text_hit (g : string) (behind : list ascii) (c : ascii)
    (rest : string) :
  Re.behind_is lookbehind behind = false ->
  Str.startswith (String c rest) ("../" ++ g) = true ->
  pass_text g behind (String c rest) 0
  = ("../../" ++ g) ++ pass_text g (c :: behind) rest (2 + String.length g).
Proof.
  intros Hb Hs. unfold pass_text. now rewrite depth_pass_hit.
Qed.

Lemma pass_text_miss (g : string) (behind : list ascii) (c : ascii)
    (rest : string) :
  negb (Str.startswith (String c rest) ("../" ++ g))
  || Re.behind_is lookbehind behind = true ->
  pass_text g behind (String c rest) 0
  = String c (pass_text g (c :: behind) rest 0).
Proof.
  intros H. unfold pass_text. now rewrite depth_pass_miss.
Qed.

Lemma pass_text_skip (g : string) (behind : list ascii) (c : ascii)
    (rest : string) (skip : nat) :
  pass_text g behind (String c rest) (S skip)
  = pass_text g (c :: behind) rest skip.
Proof. reflexivity. Qed.

(** The output of a pass for [g] is guarded for [f], when [f] is [g] or
    the input was guarded for [f].  [behind_out] is the text written so
    far, [behind] the text read so far; their last three characters agree
    once the [skip] characters of the current match are read. *)
Lemma pass_keeps_guarded (f g : string) :
  word f = true -> word g = true ->
  forall (ahead : string) (behind behind_out : list ascii) (skip : nat),
    firstn 3 behind_out
    = firstn 3 (rev (list_ascii_of_string (Str.take skip ahead)) ++ behind) ->
    f = g \/ guarded f behind ahead = true ->
    guarded f behind_out (pass_text g behind ahead skip) = true.
Proof.
  intros Hf Hg.
  assert (Hfd : dot_free f = true)
    by (unfold word in Hf; now apply andb_prop in Hf as [_ Hf]).
  induction ahead as [|c rest IH]; intros behind behind_out skip Hlast Hin.
  { now rewrite pass_text_end. }
  assert (Hin' : f = g \/ guarded f (c :: behind) rest = true).
  { destruct Hin as [Hin|Hin]; [now left|right].
    cbn [guarded] in Hin. now apply andb_prop in Hin as [_ Hin]. }
  destruct skip as [|skip].
  - (* a position no match covers *)
    cbn [Str.take list_ascii_of_string rev app] in Hlast.
    assert (Hnext : firstn 3 (c :: behind_out)
                    = firstn 3 (rev (list_ascii_of_string (Str.take 0 rest))
                                ++ c :: behind))
      by (now apply firstn_cons_agree).
    destruct (Re.behind_is lookbehind behind) eqn:Hb;
      [|destruct (Str.startswith (String c rest) ("../" ++ g)) eqn:Hs].
    + rewrite pass_text_miss by (rewrite Hb; apply orb_true_r).
      cbn [guarded].
      rewrite (behind_is_firstn _ _ Hlast), Hb, orb_true_r. cbn [andb].
      now apply IH.
    + rewrite pass_text_hit by assumption.
      rewrite guarded_replacement by assumption.
      apply IH; [|exact Hin'].
      assert (Hread : (rev (list_ascii_of_string
                              (Str.take (2 + String.length g) rest))
                         ++ c :: behind
                       = rev (list_ascii_of_string ("../" ++ g)) ++ behind)%list).
      { rewrite <- (take_startswith _ _ Hs).
        change (String.length ("../" ++ g)) with (S (2 + String.length g)).
        generalize (2 + String.length g) as n. intros n.
        cbn [Str.take list_ascii_of_string rev]. now rewrite <- app_assoc. }
      rewrite Hread.
      change (list_ascii_of_string ("../../" ++ g))
        with (list_ascii_of_string "../" ++ list_ascii_of_string ("../" ++ g))%list.
      rewrite rev_app_distr, <- app_assoc.
      apply firstn_long_prefix.
      rewrite length_rev. cbn [append list_ascii_of_string List.length]. lia.
    + rewrite pass_text_miss by (now rewrite Hs).
      cbn [guarded]. apply andb_true_intro. split; [|now apply IH].
      destruct (Str.startswith (String c (pass_text g (c :: behind) rest 0))
                  ("../" ++ f)) eqn:Hout; [|reflexivity].
      apply copied_prefix in Hout; [|exact Hfd]. cbn [negb orb].
      rewrite (behind_is_firstn _ _ Hlast).
      destruct Hin as [->|Hin]; [congruence|].
      cbn [guarded] in Hin. apply andb_prop in Hin as [Hin _].
      rewrite Hout in Hin. exact Hin.
  - (* inside the current match *)
    rewrite pass_text_skip. apply IH; [|exact Hin'].
    rewrite Hlast. cbn [Str.take list_ascii_of_string rev].
    now rewrite <- app_assoc.
Qed.

(** ** Running the rewrite twice *)

Lemma pass_guards_own (g content : string) :
  word g = true ->
  guarded g [] (Re.sub_str (depth_pattern g) ("../../" ++ g) content) = true.
Proof.
  intros Hg. apply (pass_keeps_guarded g g Hg Hg content [] [] 0); auto.
Qed.

Lemma pass_keeps_other (f g content : string) :
  word f = true -> word g = true ->
  guarded f [] content = true ->
  guarded f [] (Re.sub_str (depth_pattern g) ("../../" ++ g) content) = true.
Proof.
  intros Hf Hg H. apply (pass_keeps_guarded f g Hf Hg content [] [] 0); auto.
Qed.

Lemma passes_guard (todo done : list string) (content : string) :
  forallb word (done ++ todo) = true ->
  forallb (fun f => guarded f [] content) done = true ->
  forallb (fun f =>
             guarded f []
               (fold_left
                  (fun new_content folder =>
                     Re.sub_str (depth_pattern folder) ("../../" ++ folder)
                       new_content)
                  todo content))
          (done ++ todo) = true.
Proof.
  revert done content. induction todo as [|g todo IH]; intros done content Hw Hd.
  - now rewrite app_nil_r.
  - cbn [fold_left].
    replace (done ++ g :: todo)%list with ((done ++ [g]) ++ todo)%list in *
      by (now rewrite <- app_assoc).
    apply IH; [exact Hw|].
    rewrite forallb_app in Hw. apply andb_prop in Hw as [Hw _].
    rewrite forallb_app in Hw |- *. apply andb_prop in Hw as [Hdone Hg].
    cbn [forallb] in Hg |- *. rewrite andb_true_r in Hg.
    rewrite (pass_guards_own _ _ Hg), andb_true_r.
    rewrite forallb_forall in Hd, Hdone |- *. intros f Hin.
    apply pass_keeps_other; auto.
Qed.

(** The depth correction is idempotent: its output has every [../lib],
    [../hooks], ... behind a [../], and such a text is left alone. *)
Lemma depth_correction_idempotent (content : string) :
  depth_correction (depth_correction content) = depth_correction content.
Proof.
  apply depth_correction_guarded.
  apply (passes_guard FOLDERS [] content); reflexivity.
Qed.

(** C1.  The code run twice on a file with one relocated import: each run
    appends a closing quote to the statement, so the second run changes
    the output of the first.  The guard of the depth correction is not at
    fault ([depth_correction_idempotent]): on [../lib] the correction
    gives [../../lib] and leaves that alone. *)
Theorem second_run_changes_output :
  let file := "/repo/src/App.tsx" in
  let once := "import Sidebar from './components/layout/Sidebar'';" in
  let twice := "import Sidebar from './components/layout/Sidebar''';" in
  transform "/repo" file "import Sidebar from './components/Sidebar';"
  = Ok (once, [])
  /\ transform "/repo" file once = Ok (twice, [])
  /\ twice <> once
  /\ depth_correction "../lib" = "../../lib"
  /\ depth_correction "../../lib" = "../../lib".
Proof.
  cbv zeta. split; [vm_compute; reflexivity|].
  split; [vm_compute; reflexivity|]. split; [discriminate|].
  split; vm_compute; reflexivity.
Qed.

(** ** Stylesheet imports *)

(** C7, as amended.  The component-import step returns every statement
    whose path literal ends in [.css] byte-identical and prints nothing,
    whatever its basename is and wherever the file lies.  (The depth
    correction is not part of this statement: it is textual and does
    rewrite [../<folder>] inside such a path in a relocated file.) *)
Theorem replace_import_keeps_stylesheet
    (resolve : string -> string -> result string) (filepath : string)
    (m : Re.rematch) :
  Str.endswith (Re.group m 3) ".css" = true ->
  replace_import_with resolve filepath m = (Re.group m 0, []).
Proof.
  intros Hcss. unfold replace_import_with, replace_import_try.
  rewrite Hcss.
  destruct (negb (Str.startswith (Re.group m 3) ".")); [reflexivity|].
  now destruct (_ && _).
Qed.

Lemma replace_import_keeps_stylesheet_witness :
  Str.endswith "./Sidebar.module.css" ".css" = true
  /\ replace_import_with failing_resolve "/repo/src/App.tsx"
       (statement "import styles from " "'" "./Sidebar.module.css" "';")
     = ("import styles from './Sidebar.module.css';", []).
Proof.
  split; [reflexivity|].
  apply (replace_import_keeps_stylesheet failing_resolve "/repo/src/App.tsx"
           (statement "import styles from " "'" "./Sidebar.module.css" "';")).
  reflexivity.
Defined.

(** C7 as stated fails: in a relocated file the depth correction rewrites
    a stylesheet import that goes through a shared folder. *)
Lemma stylesheet_import_depth_corrected :
  Str.endswith "../assets/theme.css" ".css" = true
  /\ transform "/repo" "/repo/src/features/capture/LiveTranscript.tsx"
       "import styles from '../assets/theme.css';"
     = Ok ("import styles from '../../assets/theme.css';", [])
  /\ "import styles from '../../assets/theme.css';"
     <> "import styles from '../assets/theme.css';".
Proof.
  split; [reflexivity|]. split; [vm_compute; reflexivity|discriminate].
Qed.

(** ** The per-statement handler *)

(** With the resolver of the script the [try] block never raises, so
    [replace_import] prints nothing. *)
Lemma replace_import_silent (cwd filepath : string) (m : Re.rematch) :
  snd (replace_import cwd filepath m) = [].
Proof.
  unfold replace_import, replace_import_with, replace_import_try.
  destruct (negb (Str.startswith (Re.group m 3) ".")); [reflexivity|].
  destruct (Str.endswith (Re.group m 3) ".css").
  { now destruct (_ && _). }
  destruct (dict_get MAPPING _) as [target|].
  - destruct (get_relative_path_returns cwd filepath target) as (rel & -> & _).
    reflexivity.
  - destruct (Str.contains _ _); [|reflexivity].
    destruct (dict_get MAPPING _) as [target|]; [|reflexivity].
    destruct (get_relative_path_returns cwd filepath target) as (rel & -> & _).
    reflexivity.
Qed.

(** ** The guard of the depth correction *)

(** C8, as amended.  A file that the code does not classify as relocated
    keeps its content through the depth-correction step: with [parts] the segments
    of its path under the source root, if it is not the case that
    [parts[0]] is [features] with at least three segments, nor that
    [parts[0]] is [components] with [parts[1]] one of [layout] and
    [common], then step 1 returns the content as it was, [../lib] and the
    like included.  (The single path [components], on which [parts[1]]
    raises, is set apart; [main] passes only names ending in [.ts] or
    [.tsx].) *)
Theorem depth_step_skips_unmoved
    (cwd filepath content rel : string) (parts : list string) :
  PosixPath.relpath cwd filepath (SRC_ROOT cwd) = Ok rel ->
  parts = Str.split sep rel ->
  ~ (nth_error parts 0 = Some "features" /\ 3 <= List.length parts) ->
  ~ (nth_error parts 0 = Some "components"
     /\ (nth_error parts 1 = Some "layout"
         \/ nth_error parts 1 = Some "common")) ->
  parts <> ["components"] ->
  depth_step cwd filepath content = Ok content.
Proof.
  intros Hrel Hparts Hfeat Hlay Hone.
  unfold depth_step, is_moved. rewrite Hrel. cbn [rbind]. rewrite <- Hparts.
  destruct (split_cons sep rel) as (p0 & ps & Hsplit).
  rewrite Hsplit in Hparts. subst parts.
  unfold is_moved_feature_file, is_moved_layout_file, index.
  cbn [nth_error rbind].
  assert (Hf : String.eqb p0 "features" && (3 <=? List.length (p0 :: ps))%nat = false).
  { apply not_true_is_false. intros H. apply andb_prop in H as [H0 H3].
    apply Hfeat. split.
    - apply String.eqb_eq in H0. now subst.
    - now apply Nat.leb_le. }
  rewrite Hf.
  destruct (String.eqb_spec p0 "components") as [->|Hne]; [|reflexivity].
  destruct ps as [|p1 ps]; [now elim Hone|].
  cbn [nth_error rbind].
  assert (Hl : String.eqb p1 "layout" || String.eqb p1 "common" = false).
  { apply not_true_is_false. intros H. apply Hlay. split; [reflexivity|].
    apply orb_prop in H as [H|H]; apply String.eqb_eq in H; subst; auto. }
  now rewrite Hl.
Qed.

Lemma depth_step_skips_unmoved_witness :
  depth_step "/repo" "/repo/src/lib/api.ts" "import x from '../lib/x';"
  = Ok "import x from '../lib/x';".
Proof.
  apply (depth_step_skips_unmoved "/repo" "/repo/src/lib/api.ts"
           "import x from '../lib/x';" "lib/api.ts" ["lib"; "api.ts"]).
  - vm_compute. reflexivity.
  - reflexivity.
  - intros [H _]. discriminate H.
  - intros [H _]. discriminate H.
  - discriminate.
Defined.

(** C8 as stated fails: a file below [components/layout] but not directly
    in it is classified by [parts[1]] alone, so the depth correction
    rewrites its [../lib]. *)
Lemma depth_step_rewrites_nested_layout_file :
  let file := "/repo/src/components/layout/nested/Panel.tsx" in
  PosixPath.relpath "/repo" file (SRC_ROOT "/repo")
  = Ok "components/layout/nested/Panel.tsx"
  /\ Str.split sep "components/layout/nested/Panel.tsx"
     = ["components"; "layout"; "nested"; "Panel.tsx"]
  /\ PosixPath.dirname file = "/repo/src/components/layout/nested"
  /\ depth_step "/repo" file "import { api } from '../lib/api';"
     = Ok "import { api } from '../../lib/api';"
  /\ "import { api } from '../../lib/api';"
     <> "import { api } from '../lib/api';".
Proof.
  cbv zeta. repeat split; try (vm_compute; reflexivity). discriminate.
Qed.

(** ** The batch *)

Lemma for_each_app {A} (l1 l2 : list A) (body : A -> M unit) (w : world) :
  for_each (l1 ++ l2)%list body w
  = match for_each l1 body w with
    | (Ok _, w') => for_each l2 body w'
    | (Raise e, w') => (Raise e, w')
    end.
Proof.
  revert w. induction l1 as [|x l1 IH]; intros w; simpl.
  - reflexivity.
  - unfold bind. destruct (body x w) as [[[]|e] w']; [apply IH|reflexivity].
Qed.

Lemma for_each_raise {A} (x : A) (l : list A) (body : A -> M unit)
    (w w' : world) (e : exn) :
  body x w = (Raise e, w') -> for_each (x :: l) body w = (Raise e, w').
Proof. intros H. simpl. unfold bind. now rewrite H. Qed.

(** C5, as amended.  [main] has no handler: when [fix_imports_in_file]
    raises on a file, the files enumerated before it have been processed,
    and [main] raises the same exception in the world the failing call
    left behind.  No file enumerated after it is read or written, and
    nothing more is printed, neither a report nor the closing line. *)
Theorem main_stops_at_failing_file
    (cwd : string)
    (walk_before walk_after : list (string * list string * list string))
    (root : string) (dirs files_before files_after : list string)
    (file : string) (w w1 w2 w3 : world) (e : exn) :
  fix_tree cwd walk_before (snd (print "Starting import fix..." w)) = (Ok tt, w1) ->
  fix_files cwd root files_before w1 = (Ok tt, w2) ->
  eligible file = true ->
  fix_imports_in_file cwd (PosixPath.join root [file]) w2 = (Raise e, w3) ->
  main cwd (walk_before
            ++ (root, dirs, (files_before ++ file :: files_after)%list)
               :: walk_after)%list w
  = (Raise e, w3).
Proof.
  intros Hbefore Hfiles Helig Hfail.
  assert (Hinner : fix_files cwd root (files_before ++ file :: files_after)%list w1
                   = (Raise e, w3)).
  { unfold fix_files in *. rewrite for_each_app, Hfiles.
    apply for_each_raise. now rewrite Helig. }
  unfold main, bind at 1. cbn [print].
  cbn [print snd] in Hbefore.
  unfold bind at 1. unfold fix_tree in *.
  rewrite for_each_app, Hbefore.
  erewrite for_each_raise; [reflexivity|exact Hinner].
Qed.

Lemma main_stops_at_failing_file_witness :
  main "/repo" sample_walk sample_world
  = (Raise (OSError "Permission denied: /repo/src/features/capture/Broken.tsx"),
     World (w_files sample_world) ["Starting import fix..."]).
Proof.
  apply (main_stops_at_failing_file "/repo"
           [ ("/repo/src", ["features"], []);
             ("/repo/src/features", ["capture"], []) ] []
           "/repo/src/features/capture" [] [] ["LiveTranscript.tsx"]
           "Broken.tsx" sample_world
           (World (w_files sample_world) ["Starting import fix..."])
           (World (w_files sample_world) ["Starting import fix..."])).
  - reflexivity.
  - reflexivity.
  - reflexivity.
  - reflexivity.
Defined.

(** C5 as stated fails: the unreadable file ends the run, and the file
    after it, which a run of its own would update, is left as it was. *)
Lemma main_aborts_on_unreadable_file :
  let later := "/repo/src/features/capture/LiveTranscript.tsx" in
  fst (main "/repo" sample_walk sample_world)
  = Raise (OSError "Permission denied: /repo/src/features/capture/Broken.tsx")
  /\ fs_get (w_files (snd (main "/repo" sample_walk sample_world))) later
     = Some (File "import y from '../lib/y';" true true)
  /\ w_stdout (snd (main "/repo" sample_walk sample_world))
     = ["Starting import fix..."]
  /\ fs_get (w_files (snd (fix_imports_in_file "/repo" later sample_world))) later
     = Some (File "import y from '../../lib/y';" true true).
Proof. vm_compute. repeat split; reflexivity. Qed.

(** * Further properties of the script *)

(** ** Paths below a normalised directory *)

Lemma app_nil_r_str (s : string) : s ++ EmptyString = s.
Proof. induction s as [|a s IH]; simpl; [reflexivity|now rewrite IH]. Qed.

Lemma tail_path_join (ds : list string) :
  ds <> [] -> tail_path ds = String sep (Str.join sep ds).
Proof.
  induction ds as [|d ds IH]; intros Hne; [now elim Hne|].
  destruct ds as [|d' ds].
  - cbn. now rewrite app_nil_r_str.
  - change (tail_path (d :: d' :: ds))
      with (String sep d ++ tail_path (d' :: ds)).
    rewrite IH by discriminate. reflexivity.
Qed.

Lemma tail_path_app (cs ds : list string) :
  tail_path (cs ++ ds) = tail_path cs ++ tail_path ds.
Proof.
  induction cs as [|c cs IH]; [reflexivity|].
  cbn [app tail_path]. rewrite IH. cbn [append]. now rewrite app_assoc_str.
Qed.

Lemma canonical_under (k : nat) (cs ds : list string) :
  cs <> [] -> canonical k cs ++ tail_path ds = canonical k (cs ++ ds).
Proof.
  intros Hcs. destruct ds as [|d ds].
  - now rewrite app_nil_r, app_nil_r_str.
  - rewrite tail_path_join by discriminate.
    apply canonical_extend; [assumption|discriminate].
Qed.

Lemma clean_plain (cs : list string) :
  Forall (fun c => clean c = true) cs ->
  Forall (fun c => c <> EmptyString /\ sep_free c = true) cs.
Proof.
  apply Forall_impl. intros c Hc.
  apply clean_inv in Hc as (H1 & _ & _ & H4). split; [|assumption].
  intros ->. discriminate.
Qed.

Lemma join_plain (a : string) (l : list string) :
  Forall (fun c => c <> EmptyString /\ sep_free c = true) (a :: l) ->
  PosixPath.join a l = Str.join sep (a :: l).
Proof.
  intros H. inversion H as [|? ? [Ha Hfree] Hl]; subst.
  destruct (sep_free_last a Ha Hfree) as (x & b & -> & Hb).
  now apply join_components.
Qed.

(** [initial_slashes] looks at no more than the slashes and the first
    component. *)
Lemma canonical_initial_slashes_app (k : nat) (cs : list string) (z : string) :
  k = 1 \/ k = 2 -> cs <> [] -> Forall (fun c => clean c = true) cs ->
  PosixPath.initial_slashes (canonical k cs ++ z) = k.
Proof.
  intros Hk Hne Hclean.
  destruct cs as [|c cs']; [now elim Hne|].
  inversion Hclean as [|? ? Hc _]; subst.
  destruct (clean_head c cs' Hc) as (a & rest & Hjoin & Ha).
  unfold canonical. rewrite Hjoin.
  assert (Hsa : Ascii.eqb "/" a = false) by (now rewrite Ascii.eqb_sym).
  unfold PosixPath.initial_slashes, sep.
  destruct Hk as [-> | ->]; cbn [Str.replicate append Str.startswith];
    rewrite ?Ascii.eqb_refl, ?Hsa; reflexivity.
Qed.

(** [normpath] of a normalised directory joined with a relative path: the
    components of the relative path act on the stack of the directory. *)
Lemma normpath_canonical_join (k : nat) (cs : list string) (r : string) :
  k = 1 \/ k = 2 -> cs <> [] -> Forall (fun c => clean c = true) cs ->
  Str.startswith r "/" = false ->
  PosixPath.normpath (PosixPath.join (canonical k cs) [r])
  = canonical k (fold_left (PosixPath.norm_step k) (Str.split sep r) cs).
Proof.
  intros Hk Hne Hclean Hr.
  destruct (canonical_last k cs Hne Hclean) as (x & a & Hx & Ha).
  unfold PosixPath.join. cbn [fold_left].
  rewrite Hx, join_step_plain by assumption. rewrite <- Hx.
  destruct (isabs_inv _ (canonical_isabs k cs Hk)) as [p Hp].
  assert (Hq : canonical k cs ++ String sep r = String sep (p ++ String sep r))
    by (now rewrite Hp).
  rewrite Hq, normpath_abs, <- Hq. unfold PosixPath.norm_comps.
  rewrite canonical_initial_slashes_app by assumption.
  rewrite split_app_sep, fold_left_app.
  rewrite canonical_split by assumption.
  rewrite fold_left_app, fold_norm_empties, (fold_norm_push k cs [] Hclean).
  reflexivity.
Qed.

Lemma norm_step_pop (k : nat) (st : list string) (c : string) :
  1 <= k -> clean c = true ->
  PosixPath.norm_step k (st ++ [c])%list ".." = st.
Proof.
  intros Hk Hc. apply clean_inv in Hc as (_ & _ & Hc & _).
  unfold PosixPath.norm_step. cbn [String.eqb Ascii.eqb Bool.eqb orb negb].
  replace (k =? 0)%nat with false by (symmetry; apply Nat.eqb_neq; lia).
  rewrite last_last, Hc, length_app. cbn [List.length andb orb].
  replace (List.length st + 1 =? 0)%nat with false
    by (symmetry; apply Nat.eqb_neq; lia).
  cbn [negb andb]. apply removelast_last.
Qed.

Lemma fold_norm_pops (k : nat) (fr st : list string) :
  1 <= k -> Forall (fun c => clean c = true) fr ->
  fold_left (PosixPath.norm_step k) (repeat ".." (List.length fr))
    (st ++ fr)%list
  = st.
Proof.
  intros Hk. induction fr as [|c fr IH] using rev_ind; intros Hfr.
  - now rewrite app_nil_r.
  - apply Forall_app in Hfr as [Hfr Hc]. inversion Hc; subst.
    rewrite length_app. cbn [List.length].
    replace (List.length fr + 1) with (S (List.length fr)) by lia.
    cbn [repeat fold_left]. rewrite app_assoc, norm_step_pop by assumption.
    now apply IH.
Qed.

Lemma commonprefix_decompose (l1 l2 : list string) :
  exists common r1 r2,
    l1 = (common ++ r1)%list /\ l2 = (common ++ r2)%list
    /\ PosixPath.commonprefix r1 r2 = [].
Proof.
  revert l2. induction l1 as [|x l1 IH]; intros l2.
  - exists [], [], l2. auto.
  - destruct l2 as [|y l2].
    + exists [], (x :: l1), []. auto.
    + destruct (String.eqb x y) eqn:Hxy.
      * apply String.eqb_eq in Hxy. subst y.
        destruct (IH l2) as (c & r1 & r2 & -> & -> & H).
        exists (x :: c), r1, r2. auto.
      * exists [], (x :: l1), (y :: l2). cbn. rewrite Hxy. auto.
Qed.

(** ** The resolver on files below the source root *)

Section UnderRoot.

Variable cwd : string.
Hypothesis Habs : PosixPath.isabs cwd = true.

(** The directory of a file below the root and the absolute target, as
    normalised paths over the components of the root. *)
Lemma under_root_paths (dir to_comps : list string) (file : string) :
  Forall (fun c => clean c = true) dir ->
  Forall (fun c => clean c = true) to_comps -> to_comps <> [] ->
  sep_free file = true ->
  exists k base,
    (k = 1 \/ k = 2) /\ base <> [] /\ Forall (fun c => clean c = true) base
    /\ SRC_ROOT cwd = canonical k base
    /\ PosixPath.dirname (file_under cwd dir file) = canonical k (base ++ dir)
    /\ PosixPath.join (SRC_ROOT cwd) [Str.join sep to_comps]
       = canonical k (base ++ to_comps).
Proof.
  intros Hdir Hto Hne Hfile.
  destruct (SRC_ROOT_canonical cwd Habs) as (k & cs & Hk & Hcs & HR).
  exists k, (cs ++ ["src"])%list.
  assert (Hbase : Forall (fun c => clean c = true) (cs ++ ["src"])).
  { apply Forall_app. split; [assumption|]. now repeat constructor. }
  assert (Hbne : (cs ++ ["src"])%list <> []) by (now destruct cs).
  repeat split; try assumption.
  - unfold file_under. rewrite HR, tail_path_app, <- app_assoc_str.
    rewrite canonical_under by assumption.
    cbn [tail_path]. rewrite app_nil_r_str.
    destruct (canonical_last k ((cs ++ ["src"]) ++ dir)) as (x & a & Hx & Ha).
    { now destruct cs. }
    { now apply Forall_app. }
    rewrite Hx. now apply dirname_of_file.
  - rewrite HR.
    destruct (canonical_last k _ Hbne Hbase) as (x & a & Hx & Ha).
    unfold PosixPath.join. cbn [fold_left].
    rewrite Hx, join_step_plain; [|assumption|].
    + rewrite <- Hx. now apply canonical_extend.
    + destruct to_comps as [|t to_rest]; [now elim Hne|].
      inversion Hto as [|? ? Ht _]; subst.
      destruct (clean_head t to_rest Ht) as (b & rest & -> & Hb).
      cbn [Str.startswith]. rewrite Ascii.eqb_sym. fold sep. now rewrite Hb.
Qed.

Lemma rel_of_join (up : nat) (down : list string) :
  Forall (fun c => clean c = true) down ->
  match (repeat ".." up ++ down)%list with
  | [] => Ok "."
  | a :: p =>
      Ok (if negb (Str.startswith (PosixPath.join a p) ".")
          then "./" ++ PosixPath.join a p else PosixPath.join a p)
  end = Ok (rel_of up down).
Proof.
  intros Hdown. unfold rel_of.
  assert (Hplain : Forall (fun c => c <> EmptyString /\ sep_free c = true)
                     (repeat ".." up ++ down)).
  { apply Forall_app. split; [|now apply clean_plain].
    apply Forall_forall. intros c Hc. apply repeat_spec in Hc. subst c.
    split; [discriminate|reflexivity]. }
  destruct (repeat ".." up ++ down)%list as [|a p]; [reflexivity|].
  rewrite (join_plain _ _ Hplain).
  now destruct (Str.startswith _ ".").
Qed.

(** The resolver in closed form, over the components of its arguments. *)
Lemma resolve_closed_form
    (common fr tr : list string) (file : string) :
  Forall (fun c => clean c = true) (common ++ fr) ->
  Forall (fun c => clean c = true) (common ++ tr) ->
  (common ++ tr)%list <> [] ->
  sep_free file = true ->
  PosixPath.commonprefix fr tr = [] ->
  get_relative_path cwd (file_under cwd (common ++ fr) file)
    (Str.join sep (common ++ tr))
  = Ok (rel_of (List.length fr) tr).
Proof.
  intros Hdir Hto Hne Hfile Hcp.
  destruct (under_root_paths _ _ _ Hdir Hto Hne Hfile)
    as (k & base & Hk & Hbne & Hbase & HR & Hfrom & Htarget).
  unfold get_relative_path. rewrite Hfrom, Htarget.
  unfold PosixPath.relpath.
  replace (Str.is_empty (canonical k (base ++ common ++ tr))) with false
    by (destruct Hk as [-> | ->]; reflexivity).
  rewrite !canonical_abspath, !canonical_segments;
    try (apply Forall_app; now split); try (now destruct base); try assumption.
  rewrite !app_assoc, commonprefix_app, Hcp, app_nil_r.
  rewrite skipn_length_app, !length_app.
  replace (List.length base + List.length common + List.length fr
           - (List.length base + List.length common))
    with (List.length fr) by lia.
  cbn [rbind].
  apply Forall_app in Hto as [_ Htr].
  rewrite <- (rel_of_join _ _ Htr).
  destruct (repeat ".." (List.length fr) ++ tr)%list; reflexivity.
Qed.

(** What the resolved path does to the components of a directory when
    [normpath] reads it after them. *)
Lemma rel_of_acts (k : nat) (st fr tr : list string) :
  1 <= k ->
  Forall (fun c => clean c = true) fr -> Forall (fun c => clean c = true) tr ->
  Str.startswith (rel_of (List.length fr) tr) "/" = false
  /\ fold_left (PosixPath.norm_step k)
       (Str.split sep (rel_of (List.length fr) tr)) (st ++ fr)%list
     = (st ++ tr)%list.
Proof.
  intros Hk Hfr Htr. unfold rel_of.
  assert (Hfold : fold_left (PosixPath.norm_step k)
                    (repeat ".." (List.length fr) ++ tr)%list (st ++ fr)%list
                  = (st ++ tr)%list).
  { rewrite fold_left_app, fold_norm_pops by assumption.
    now apply fold_norm_push. }
  assert (Hfree : Forall (fun c => sep_free c = true)
                    (repeat ".." (List.length fr) ++ tr)).
  { apply Forall_app. split; [|now apply clean_sep_free].
    apply Forall_forall. intros c Hc. apply repeat_spec in Hc. now subst c. }
  destruct (repeat ".." (List.length fr) ++ tr)%list as [|a p] eqn:Hl.
  - split; [reflexivity|].
    destruct fr; [|discriminate]. destruct tr; [|discriminate]. reflexivity.
  - destruct (Str.startswith (Str.join sep (a :: p)) ".") eqn:Hdot.
    + split.
      * destruct (Str.join sep (a :: p)) as [|b s]; [discriminate|].
        cbn [Str.startswith] in Hdot |- *. apply andb_prop in Hdot as [Hb _].
        apply Ascii.eqb_eq in Hb. now subst b.
      * rewrite split_join by (auto; discriminate). exact Hfold.
    + split; [reflexivity|].
      change ("./" ++ Str.join sep (a :: p))
        with ("." ++ String sep (Str.join sep (a :: p))).
      rewrite split_app_sep, split_join by (auto; discriminate).
      exact Hfold.
Qed.

(** X2.  The resolved path leads to the target: for a file below the
    source root and a target below it, joining the directory of the file
    with what the resolver returns and normalising gives the absolute
    path of the target. *)
Theorem get_relative_path_round_trip
    (dir to_comps : list string) (file : string) :
  Forall (fun c => clean c = true) dir ->
  Forall (fun c => clean c = true) to_comps -> to_comps <> [] ->
  sep_free file = true ->
  exists rel,
    get_relative_path cwd (file_under cwd dir file) (Str.join sep to_comps)
    = Ok rel
    /\ PosixPath.normpath
         (PosixPath.join (PosixPath.dirname (file_under cwd dir file)) [rel])
       = PosixPath.join (SRC_ROOT cwd) [Str.join sep to_comps].
Proof.
  intros Hdir Hto Hne Hfile.
  destruct (commonprefix_decompose dir to_comps)
    as (common & fr & tr & -> & -> & Hcp).
  exists (rel_of (List.length fr) tr).
  split; [now apply resolve_closed_form|].
  destruct (under_root_paths _ _ _ Hdir Hto Hne Hfile)
    as (k & base & Hk & Hbne & Hbase & HR & Hfrom & Htarget).
  rewrite Hfrom, Htarget.
  pose proof Hdir as Hdir'. apply Forall_app in Hdir' as [Hcommon Hfr].
  pose proof Hto as Hto'. apply Forall_app in Hto' as [_ Htr].
  assert (Hk1 : 1 <= k) by (destruct Hk; lia).
  destruct (rel_of_acts k (base ++ common) fr tr Hk1 Hfr Htr) as [Hslash Hfold].
  rewrite normpath_canonical_join; try assumption.
  - now rewrite !app_assoc, Hfold.
  - now destruct base.
  - now apply Forall_app.
Qed.

(** ** Which files are depth-corrected *)

Lemma file_under_canonical (dir : list string) (file : string) :
  Forall (fun c => clean c = true) dir -> clean file = true ->
  exists k base,
    (k = 1 \/ k = 2) /\ base <> [] /\ Forall (fun c => clean c = true) base
    /\ SRC_ROOT cwd = canonical k base
    /\ file_under cwd dir file = canonical k (base ++ dir ++ [file]).
Proof.
  intros Hdir Hfile.
  destruct (SRC_ROOT_canonical cwd Habs) as (k & cs & Hk & Hcs & HR).
  exists k, (cs ++ ["src"])%list.
  assert (Hbase : Forall (fun c => clean c = true) (cs ++ ["src"])).
  { apply Forall_app. split; [assumption|]. now repeat constructor. }
  assert (Hbne : (cs ++ ["src"])%list <> []) by (now destruct cs).
  repeat split; try assumption.
  unfold file_under. rewrite HR. now apply canonical_under.
Qed.

Lemma commonprefix_prefix (base x : list string) :
  PosixPath.commonprefix base (base ++ x) = base.
Proof.
  induction base as [|c base IH]; [reflexivity|].
  cbn. now rewrite String.eqb_refl, IH.
Qed.

(** The segments [fix_imports_in_file] splits off are the components of
    the file below the root. *)
Lemma parts_under_root (dir : list string) (file : string) :
  Forall (fun c => clean c = true) dir -> clean file = true ->
  exists rel,
    PosixPath.relpath cwd (file_under cwd dir file) (SRC_ROOT cwd) = Ok rel
    /\ Str.split sep rel = (dir ++ [file])%list.
Proof.
  intros Hdir Hfile.
  destruct (file_under_canonical dir file Hdir Hfile)
    as (k & base & Hk & Hbne & Hbase & HR & Hpath).
  assert (Hcomps : Forall (fun c => clean c = true) (dir ++ [file])).
  { apply Forall_app. split; [assumption|]. now repeat constructor. }
  exists (Str.join sep (dir ++ [file])). split.
  - rewrite Hpath, HR. unfold PosixPath.relpath.
    replace (Str.is_empty (canonical k (base ++ dir ++ [file]))) with false
      by (destruct Hk as [-> | ->]; reflexivity).
    rewrite !canonical_abspath, !canonical_segments;
      try (apply Forall_app; now split); try (now destruct base); try assumption.
    rewrite commonprefix_prefix, skipn_length_app, Nat.sub_diag.
    cbn [repeat app].
    destruct (dir ++ [file])%list as [|a p] eqn:Hl; [now destruct dir|].
    f_equal. apply join_plain. now apply clean_plain.
  - apply split_join; [now destruct dir|now apply clean_sep_free].
Qed.

Lemma eligible_names (file : string) :
  eligible file = true ->
  String.eqb file "features" = false /\ String.eqb file "components" = false
  /\ String.eqb file "layout" = false /\ String.eqb file "common" = false.
Proof.
  intros H. repeat split;
    match goal with
    | |- String.eqb file ?s = false =>
        destruct (String.eqb_spec file s) as [->|_]; [discriminate H|reflexivity]
    end.
Qed.

Lemma is_moved_under_root_eq (dir : list string) (file : string) :
  Forall (fun c => clean c = true) dir -> clean file = true ->
  eligible file = true ->
  is_moved cwd (file_under cwd dir file) = Ok (relocated dir).
Proof.
  intros Hdir Hfile Hel.
  destruct (parts_under_root dir file Hdir Hfile) as (rel & Hrel & Hparts).
  destruct (eligible_names file Hel) as (Hf & Hc & Hl & Hm).
  unfold is_moved. rewrite Hrel. cbn [rbind]. rewrite Hparts.
  unfold is_moved_feature_file, is_moved_layout_file, index, relocated.
  destruct dir as [|d0 [|d1 dir]]; cbn [app nth_error rbind List.length].
  - rewrite Hf, Hc. reflexivity.
  - rewrite andb_false_r.
    destruct (String.eqb d0 "components"); cbn [rbind]; [|reflexivity].
    now rewrite Hl, Hm.
  - replace (3 <=? S (S (List.length (dir ++ [file]))))%nat with true
      by (symmetry; apply Nat.leb_le; rewrite length_app; cbn; lia).
    rewrite andb_true_r.
    destruct (String.eqb d0 "components"); cbn [rbind]; reflexivity.
Qed.

End UnderRoot.

(** X1.  The resolver in closed form.  For a file in the directory
    [common/fr] below the source root and a target [common/tr] below it,
    where [fr] and [tr] share no first component, the result is one [..]
    per component of [fr] followed by [tr]; [./] is put in front when that
    does not start with a dot, and the result is [.] when both are empty. *)
Theorem get_relative_path_closed_form
    (cwd : string) (common fr tr : list string) (file : string) :
  PosixPath.isabs cwd = true ->
  Forall (fun c => clean c = true) (common ++ fr) ->
  Forall (fun c => clean c = true) (common ++ tr) ->
  (common ++ tr)%list <> [] ->
  sep_free file = true ->
  PosixPath.commonprefix fr tr = [] ->
  get_relative_path cwd (file_under cwd (common ++ fr) file)
    (Str.join sep (common ++ tr))
  = Ok (rel_of (List.length fr) tr).
Proof.
  intros Habs Hdir Hto Hne Hfile Hcp. now apply resolve_closed_form.
Qed.

Lemma get_relative_path_closed_form_witness :
  get_relative_path "/repo"
    (file_under "/repo" (["features"] ++ ["settings"; "panels"]) "Tabs.tsx")
    (Str.join sep (["features"] ++ ["memory"; "RewindTimeline"]))
  = Ok "../../memory/RewindTimeline".
Proof.
  apply (get_relative_path_closed_form "/repo" ["features"]
           ["settings"; "panels"] ["memory"; "RewindTimeline"] "Tabs.tsx");
    try reflexivity.
  - now repeat constructor.
  - now repeat constructor.
  - discriminate.
Defined.

Lemma get_relative_path_round_trip_witness :
  exists rel,
    get_relative_path "/repo"
      (file_under "/repo" ["features"; "capture"] "LiveTranscript.tsx")
      (Str.join sep ["components"; "layout"; "Sidebar"])
    = Ok rel
    /\ PosixPath.normpath
         (PosixPath.join
            (PosixPath.dirname
               (file_under "/repo" ["features"; "capture"] "LiveTranscript.tsx"))
            [rel])
       = PosixPath.join (SRC_ROOT "/repo")
           [Str.join sep ["components"; "layout"; "Sidebar"]].
Proof.
  apply (get_relative_path_round_trip "/repo" eq_refl
           ["features"; "capture"] ["components"; "layout"; "Sidebar"]
           "LiveTranscript.tsx").
  - now repeat constructor.
  - now repeat constructor.
  - discriminate.
  - reflexivity.
Defined.

(** X3.  Which files get the depth correction.  For a source file below
    the source root, wherever the tool is started, step 1 rewrites the
    content exactly when the directory of the file is at least two levels
    deep and starts with [features/<any>], [components/layout] or
    [components/common]; otherwise it returns the content as it is.  It
    does not raise on such a file. *)
Theorem depth_step_under_root
    (cwd : string) (dir : list string) (file content : string) :
  PosixPath.isabs cwd = true ->
  Forall (fun c => clean c = true) dir -> clean file = true ->
  eligible file = true ->
  depth_step cwd (file_under cwd dir file) content
  = Ok (if relocated dir then depth_correction content else content).
Proof.
  intros Habs Hdir Hfile Hel. unfold depth_step.
  now rewrite is_moved_under_root_eq.
Qed.

Lemma depth_step_under_root_witness :
  depth_step "/repo"
    (file_under "/repo" ["components"; "common"] "SearchBar.tsx")
    "import { api } from '../lib/api';"
  = Ok "import { api } from '../../lib/api';".
Proof.
  apply (depth_step_under_root "/repo" ["components"; "common"]
           "SearchBar.tsx" "import { api } from '../lib/api';");
    try reflexivity.
  now repeat constructor.
Defined.

(** X4.  The resolver has no failure case: for every working directory,
    file path and target it returns a path, and that path starts with a
    dot. *)
Theorem get_relative_path_total (cwd from_file to_target : string) :
  exists rel,
    get_relative_path cwd from_file to_target = Ok rel
    /\ Str.startswith rel "." = true.
Proof. exact (get_relative_path_returns cwd from_file to_target). Qed.

(** ** What the substitution passes print *)

(** A pass prints only what its callback prints. *)
Lemma sub_loop_quiet (r : Re.regex) (repl : Re.rematch -> Re.out) :
  (forall m, snd (repl m) = []) ->
  forall (ahead : string) (behind : list ascii) (skip : nat),
    snd (Re.sub_loop r repl behind ahead skip) = [].
Proof.
  intros Hrepl. induction ahead as [|c rest IH]; intros behind skip.
  - destruct skip; cbn [Re.sub_loop]; [|reflexivity].
    destruct (Re.match_at false r behind EmptyString); [apply Hrepl|reflexivity].
  - destruct skip as [|skip]; cbn [Re.sub_loop]; [|apply IH].
    destruct (Re.match_at false r behind (String c rest)) as [m|].
    + destruct (String.length (Re.m_full m)).
      * destruct (Re.match_at true r behind (String c rest)) as [m2|];
          cbn [Re.out_cat Re.out_text snd]; now rewrite ?Hrepl, ?IH.
      * cbn [Re.out_cat snd]. now rewrite Hrepl, IH.
    + cbn [Re.out_cat Re.out_text snd]. now rewrite IH.
Qed.

Lemma step2_silent (cwd filepath content : string) :
  snd (fix_component_imports (get_relative_path cwd) filepath content) = [].
Proof.
  unfold fix_component_imports. cbn [snd].
  unfold Re.sub.
  rewrite !sub_loop_quiet; [reflexivity| |];
    intros m; apply (replace_import_silent cwd filepath m).
Qed.

(** X5.  With the resolver of the script, step 2 prints no error line,
    whatever the file and its text: the [except] branch of
    [replace_import] is never taken. *)
Theorem fix_component_imports_silent (cwd filepath content : string) :
  snd (fix_component_imports (get_relative_path cwd) filepath content) = [].
Proof. exact (step2_silent cwd filepath content). Qed.

(** ** The depth correction as a whole *)

(** X6.  The depth correction is idempotent: applied to its own output it
    changes nothing, for every text. *)
Theorem depth_correction_twice (content : string) :
  depth_correction (depth_correction content) = depth_correction content.
Proof. exact (depth_correction_idempotent content). Qed.

(** X7.  After the depth correction no single-level reference is left:
    in its output every [../lib], [../hooks], [../contexts], [../assets],
    [../utils] and [../types] has [../] right before it. *)
Theorem depth_correction_output_guarded (content : string) :
  forallb (fun folder => guarded folder [] (depth_correction content)) FOLDERS
  = true.
Proof. apply (passes_guard FOLDERS [] content); reflexivity. Qed.

(** ** Statements and texts that step 2 leaves alone *)

Lemma unmapped_kept
    (resolve : string -> string -> result string) (filepath : string)
    (m : Re.rematch) :
  dict_get MAPPING (lookup_name (Re.group m 3)) = None ->
  replace_import_with resolve filepath m = (Re.group m 0, []).
Proof.
  intros Hmiss. pose proof (secondary_lookup_misses _ Hmiss) as Hmiss2.
  unfold replace_import_with, replace_import_try.
  unfold lookup_name, has_source_ext in Hmiss.
  destruct (negb (Str.startswith (Re.group m 3) ".")); [reflexivity|].
  destruct (Str.endswith (Re.group m 3) ".css"); [now destruct (_ && _)|].
  rewrite Hmiss, Hmiss2. now destruct (Str.contains _ _).
Qed.

(** X9.  An import whose name is not a key of MAPPING is returned as it
    was matched, also when its path contains [components/]: only the
    basename decides, and nothing is printed. *)
Theorem replace_import_keeps_unmapped
    (resolve : string -> string -> result string) (filepath : string)
    (m : Re.rematch) :
  dict_get MAPPING (lookup_name (Re.group m 3)) = None ->
  replace_import_with resolve filepath m = (Re.group m 0, []).
Proof. exact (unmapped_kept resolve filepath m). Qed.

Lemma replace_import_keeps_unmapped_witness :
  replace_import_with failing_resolve "/repo/src/App.tsx"
    (statement "import { Button } from " "'" "./components/ui/Button.tsx" "';")
  = ("import { Button } from './components/ui/Button.tsx';", []).
Proof.
  apply (replace_import_keeps_unmapped failing_resolve "/repo/src/App.tsx"
           (statement "import { Button } from " "'"
              "./components/ui/Button.tsx" "';")).
  reflexivity.
Defined.

Lemma startswith_shorter (a p q : string) :
  Str.startswith a (p ++ q) = true -> Str.startswith a p = true.
Proof.
  revert a. induction p as [|c p IH]; intros a H; [reflexivity|].
  destruct a as [|b a]; [discriminate|].
  cbn [append Str.startswith] in H |- *.
  apply andb_prop in H as [Hc H]. rewrite Hc. now apply IH.
Qed.

Lemma import_pattern_miss (behind : list ascii) (ahead : string) :
  Str.startswith ahead "import" = false ->
  Re.match_at false import_pattern behind ahead = None
  /\ Re.match_at false dynamic_import_pattern behind ahead = None.
Proof.
  intros H. unfold Re.match_at, import_pattern, dynamic_import_pattern. split.
  - cbn [Re.rmatch]. now rewrite rmatch_lit_miss.
  - cbn [Re.rmatch]. rewrite rmatch_lit_miss; [reflexivity|].
    cbn [Re.ms_ahead]. destruct (Str.startswith ahead "import(") eqn:E;
      [|reflexivity].
    apply (startswith_shorter ahead "import" "(") in E. congruence.
Qed.

(** A pass copies a text in which its pattern matches nowhere. *)
Lemma sub_loop_no_match (r : Re.regex) (repl : Re.rematch -> Re.out)
    (p : string) :
  (forall behind ahead,
     Str.startswith ahead p = false -> Re.match_at false r behind ahead = None) ->
  forall (ahead : string) (behind : list ascii),
    Str.contains ahead p = false ->
    Re.sub_loop r repl behind ahead 0 = (ahead, []).
Proof.
  intros Hmiss. induction ahead as [|c rest IH]; intros behind Hc.
  - cbn [Str.contains] in Hc. rewrite orb_false_r in Hc.
    cbn [Re.sub_loop]. now rewrite Hmiss.
  - cbn [Str.contains] in Hc. apply orb_false_elim in Hc as [Hhere Hrest].
    cbn [Re.sub_loop]. rewrite Hmiss by exact Hhere.
    now rewrite (IH _ Hrest).
Qed.

Lemma step2_copies
    (resolve : string -> string -> result string) (filepath content : string) :
  Str.contains content "import" = false ->
  fix_component_imports resolve filepath content = (content, []).
Proof.
  intros H. unfold fix_component_imports, Re.sub.
  rewrite (sub_loop_no_match import_pattern _ "import")
    by (auto; intros; now apply import_pattern_miss).
  cbn [fst snd].
  rewrite (sub_loop_no_match dynamic_import_pattern _ "import")
    by (auto; intros; now apply import_pattern_miss).
  reflexivity.
Qed.

(** X8.  A text in which the word [import] does not occur goes through
    step 2 unchanged, and nothing is printed. *)
Theorem fix_component_imports_without_import
    (resolve : string -> string -> result string) (filepath content : string) :
  Str.contains content "import" = false ->
  fix_component_imports resolve filepath content = (content, []).
Proof. exact (step2_copies resolve filepath content). Qed.

Lemma fix_component_imports_without_import_witness :
  fix_component_imports failing_resolve "/repo/src/lib/api.ts"
    "export const base = '../lib/Settings';"
  = ("export const base = '../lib/Settings';", []).
Proof.
  apply (fix_component_imports_without_import failing_resolve
           "/repo/src/lib/api.ts" "export const base = '../lib/Settings';").
  reflexivity.
Defined.

(** ** The files a run touches *)

Lemma fs_get_set_same (fs : list (string * file)) (p : string) (f : file) :
  fs_get (fs_set fs p f) p = Some f.
Proof.
  induction fs as [|[k g] fs IH]; cbn [fs_set fs_get].
  - now rewrite String.eqb_refl.
  - destruct (String.eqb k p) eqn:Hk; cbn [fs_get]; rewrite Hk; auto.
Qed.

Lemma fs_get_set_other (fs : list (string * file)) (p q : string) (f : file) :
  q <> p -> fs_get (fs_set fs p f) q = fs_get fs q.
Proof.
  intros Hq. induction fs as [|[k g] fs IH]; cbn [fs_set fs_get].
  - destruct (String.eqb_spec p q) as [->|_]; [now elim Hq|reflexivity].
  - destruct (String.eqb_spec k p) as [->|Hk]; cbn [fs_get].
    + destruct (String.eqb_spec p q) as [->|_]; [now elim Hq|reflexivity].
    + now rewrite IH.
Qed.

Lemma for_each_print (lines : list string) (w : world) :
  for_each lines print w
  = (Ok tt, World (w_files w) (w_stdout w ++ lines)).
Proof.
  revert w. induction lines as [|l lines IH]; intros [files out].
  - cbn. now rewrite app_nil_r.
  - cbn [for_each]. unfold bind at 1. cbn [print w_files w_stdout].
    rewrite IH. cbn [w_files w_stdout]. now rewrite <- app_assoc.
Qed.

Lemma readable_inv (f : file) : f_readable f = true -> f_read f = ReadOk.
Proof. unfold f_readable. now destruct (f_read f). Qed.

Lemma writable_inv (f : file) : f_writable f = true -> f_write f = WriteOk.
Proof. unfold f_writable. now destruct (f_write f). Qed.

(** One call, case by case: what it returns and the world it leaves. *)
Lemma fix_imports_in_file_run (cwd filepath : string) (w : world) :
  fix_imports_in_file cwd filepath w
  = match fs_get (w_files w) filepath with
    | None =>
        (Raise (OSError ("No such file or directory: " ++ filepath)), w)
    | Some f =>
        match f_read f with
        | ReadOk =>
            let content := universal_newlines (f_content f) in
            match transform cwd filepath content with
            | Raise e => (Raise e, w)
            | Ok (new_content, lines) =>
                if String.eqb new_content content
                then (Ok tt, World (w_files w) (w_stdout w ++ lines))
                else
                  let out :=
                    (w_stdout w ++ lines
                     ++ [("Updating " ++ filepath)%string])%list in
                  match f_write f with
                  | WriteOk =>
                      (Ok tt,
                       World (fs_set (w_files w) filepath
                                (MkFile new_content ReadOk WriteOk))
                             out)
                  | WriteDenied =>
                      (Raise (OSError ("Permission denied: " ++ filepath)),
                       World (w_files w) out)
                  | WriteFails =>
                      (Raise (OSError ("No space left on device: " ++ filepath)),
                       World (fs_set (w_files w) filepath
                                (MkFile EmptyString ReadOk WriteFails))
                             out)
                  end
            end
        | ReadDenied =>
            (Raise (OSError ("Permission denied: " ++ filepath)), w)
        | ReadUndecodable =>
            (Raise (ValueError ("codec can't decode bytes: " ++ filepath)), w)
        end
    end.
Proof.
  unfold fix_imports_in_file. unfold bind at 1. unfold read_file.
  destruct (fs_get (w_files w) filepath) as [f|] eqn:Hget; [|reflexivity].
  destruct (f_read f) eqn:Hr; [|reflexivity|reflexivity].
  cbv zeta. unfold bind at 1. unfold lift.
  destruct (transform cwd filepath (universal_newlines (f_content f)))
    as [[new_content lines]|e]; [|reflexivity].
  unfold bind at 1. rewrite for_each_print. cbn [fst snd].
  destruct (String.eqb new_content _); cbn [negb]; [reflexivity|].
  unfold bind, print, write_file. cbn [w_files w_stdout].
  rewrite Hget, Hr, <- app_assoc.
  destruct (f_write f); reflexivity.
Qed.

Lemma fix_imports_in_file_other (cwd filepath q : string) (w : world) :
  q <> filepath ->
  fs_get (w_files (snd (fix_imports_in_file cwd filepath w))) q
  = fs_get (w_files w) q.
Proof.
  intros Hq. rewrite fix_imports_in_file_run.
  destruct (fs_get (w_files w) filepath) as [f|]; [|reflexivity].
  destruct (f_read f); [|reflexivity|reflexivity].
  cbv zeta.
  destruct (transform _ _ _) as [[new_content lines]|e]; [|reflexivity].
  destruct (String.eqb _ _); [reflexivity|].
  destruct (f_write f); cbn [snd w_files]; [|reflexivity|];
    now apply fs_get_set_other.
Qed.

(** X11.  A call changes no file but its own: every other path holds
    after [fix_imports_in_file] what it held before, whether the call
    returns or raises. *)
Theorem fix_imports_in_file_frame (cwd filepath q : string) (w : world) :
  q <> filepath ->
  fs_get (w_files (snd (fix_imports_in_file cwd filepath w))) q
  = fs_get (w_files w) q.
Proof. exact (fix_imports_in_file_other cwd filepath q w). Qed.

Lemma fix_imports_in_file_frame_witness :
  fs_get (w_files (snd (fix_imports_in_file "/repo"
                          "/repo/src/features/capture/LiveTranscript.tsx"
                          styled_world)))
    "/repo/src/features/capture/LiveTranscript.css"
  = Some (File "@import '../lib/base.css';" true true).
Proof.
  apply (fix_imports_in_file_frame "/repo"
           "/repo/src/features/capture/LiveTranscript.tsx"
           "/repo/src/features/capture/LiveTranscript.css" styled_world).
  discriminate.
Defined.

(** ** Paths that [main] never touches *)

Lemma drop_app_plus (a b : string) (n : nat) :
  Str.drop (String.length a + n) (a ++ b) = Str.drop n b.
Proof. induction a as [|c a IH]; [reflexivity|exact IH]. Qed.

Lemma endswith_app (a s suffix : string) :
  Str.endswith s suffix = true -> Str.endswith (a ++ s) suffix = true.
Proof.
  unfold Str.endswith. intros H. apply andb_prop in H as [Hlen Heq].
  apply Nat.leb_le in Hlen. rewrite length_app_str.
  replace (String.length suffix <=? String.length a + String.length s)%nat
    with true by (symmetry; apply Nat.leb_le; lia).
  replace (String.length a + String.length s - String.length suffix)
    with (String.length a + (String.length s - String.length suffix)) by lia.
  now rewrite drop_app_plus.
Qed.

Lemma eligible_join (root file : string) :
  eligible file = true -> eligible (PosixPath.join root [file]) = true.
Proof.
  intros H.
  assert (Happ : forall a, eligible (a ++ file) = true).
  { intros a. unfold eligible in *. apply orb_prop in H as [H|H].
    - now rewrite (endswith_app a _ _ H).
    - rewrite (endswith_app a _ _ H). apply orb_true_r. }
  unfold PosixPath.join, PosixPath.join_step. cbn [fold_left].
  destruct (Str.startswith file "/"); [exact H|].
  destruct (_ || _); [apply Happ|].
  rewrite <- app_assoc_str. apply Happ.
Qed.

Lemma for_each_keeps {A} (l : list A) (body : A -> M unit) (p : string) :
  (forall x w, In x l ->
     fs_get (w_files (snd (body x w))) p = fs_get (w_files w) p) ->
  forall w, fs_get (w_files (snd (for_each l body w))) p = fs_get (w_files w) p.
Proof.
  induction l as [|x l IH]; intros Hbody w; [reflexivity|].
  cbn [for_each]. unfold bind.
  pose proof (Hbody x w (or_introl eq_refl)) as Hx.
  destruct (body x w) as [[[]|e] w1]; cbn [snd] in Hx |- *.
  - rewrite IH; [exact Hx|]. intros y w' Hy. apply Hbody. now right.
  - exact Hx.
Qed.

Lemma main_keeps_other (cwd : string)
    (walk : list (string * list string * list string)) (w : world)
    (p : string) :
  eligible p = false ->
  fs_get (w_files (snd (main cwd walk w))) p = fs_get (w_files w) p.
Proof.
  intros Hp. unfold main, bind at 1. cbn [print].
  set (w0 := World (w_files w) (w_stdout w ++ ["Starting import fix..."])).
  change (fs_get (w_files w) p) with (fs_get (w_files w0) p).
  assert (Htree : fs_get (w_files (snd (fix_tree cwd walk w0))) p
                  = fs_get (w_files w0) p).
  { unfold fix_tree. apply for_each_keeps. intros [[root dirs] files] w1 _.
    unfold fix_files. apply for_each_keeps. intros file w2 _.
    destruct (eligible file) eqn:Hel; [|reflexivity].
    apply fix_imports_in_file_other. intros ->.
    rewrite (eligible_join root file Hel) in Hp. discriminate. }
  unfold bind. destruct (fix_tree cwd walk w0) as [[[]|e] w1];
    cbn [snd print w_files] in Htree |- *; exact Htree.
Qed.

(** X10.  [main] changes only source files: a path that ends in neither
    [.ts] nor [.tsx] holds after the run what it held before, for every
    tree and whether the run completes or raises. *)
Theorem main_keeps_other_files (cwd : string)
    (walk : list (string * list string * list string)) (w : world)
    (p : string) :
  eligible p = false ->
  fs_get (w_files (snd (main cwd walk w))) p = fs_get (w_files w) p.
Proof. exact (main_keeps_other cwd walk w p). Qed.

Lemma main_keeps_other_files_witness :
  fs_get (w_files (snd (main "/repo" styled_walk styled_world)))
    "/repo/src/features/capture/LiveTranscript.css"
  = Some (File "@import '../lib/base.css';" true true).
Proof.
  apply (main_keeps_other_files "/repo" styled_walk styled_world
           "/repo/src/features/capture/LiveTranscript.css").
  reflexivity.
Defined.

(** ** A run over a well-formed tree *)

Section WellFormedTree.

Variable cwd : string.
Hypothesis Habs : PosixPath.isabs cwd = true.

(** The path [main] builds for a file is the path of the file below the
    root. *)
Lemma join_root_file (dir : list string) (file : string) :
  Forall (fun c => clean c = true) dir -> clean file = true ->
  PosixPath.join (SRC_ROOT cwd ++ tail_path dir) [file]
  = file_under cwd dir file.
Proof.
  intros Hdir Hfile.
  destruct (SRC_ROOT_canonical cwd Habs) as (k & cs & Hk & Hcs & HR).
  assert (Hbase : Forall (fun c => clean c = true) (cs ++ ["src"])).
  { apply Forall_app. split; [assumption|]. now repeat constructor. }
  assert (Hbne : (cs ++ ["src"])%list <> []) by (now destruct cs).
  unfold file_under. rewrite tail_path_app, <- app_assoc_str.
  rewrite HR, canonical_under by assumption.
  destruct (canonical_last k ((cs ++ ["src"]) ++ dir)) as (x & a & Hx & Ha).
  { now destruct cs. }
  { now apply Forall_app. }
  unfold PosixPath.join. cbn [fold_left].
  rewrite Hx, join_step_plain; [|assumption|].
  - cbn [tail_path]. now rewrite app_nil_r_str.
  - apply sep_free_head. now apply clean_inv in Hfile.
Qed.

Lemma transform_under_root (dir : list string) (file content : string) :
  Forall (fun c => clean c = true) dir -> clean file = true ->
  eligible file = true ->
  transform cwd (file_under cwd dir file) content
  = Ok (fst (fix_component_imports (get_relative_path cwd)
               (file_under cwd dir file)
               (if relocated dir then depth_correction content else content)),
        []).
Proof.
  intros Hdir Hfile Hel. unfold transform, depth_step.
  rewrite (is_moved_under_root_eq cwd Habs dir file Hdir Hfile Hel).
  cbn [rbind]. f_equal.
  rewrite (surjective_pairing (fix_component_imports _ _ _)).
  now rewrite step2_silent.
Qed.

(** One call on a usable source file below the root returns, keeps every
    usable file usable and prints at most its [Updating] line. *)
Lemma fix_imports_in_file_ok (dir : list string) (file : string) (w : world) :
  Forall (fun c => clean c = true) dir -> clean file = true ->
  eligible file = true -> usable w (file_under cwd dir file) ->
  exists w' lines,
    fix_imports_in_file cwd (file_under cwd dir file) w = (Ok tt, w')
    /\ (forall q, usable w q -> usable w' q)
    /\ w_stdout w' = (w_stdout w ++ lines)%list
    /\ Forall updating lines.
Proof.
  intros Hdir Hfile Hel (f & Hget & Hr & Hw).
  rewrite fix_imports_in_file_run, Hget, (readable_inv f Hr). cbv zeta.
  rewrite (transform_under_root dir file _ Hdir Hfile Hel).
  destruct (String.eqb _ (universal_newlines (f_content f))).
  - exists (World (w_files w) (w_stdout w ++ [])), [].
    repeat split; auto.
  - rewrite (writable_inv f Hw). eexists.
    exists ["Updating " ++ file_under cwd dir file].
    split; [reflexivity|]. cbn [w_stdout w_files app]. repeat split.
    + intros q (g & Hq & Hqr & Hqw). unfold usable. cbn [w_files].
      destruct (String.eqb_spec q (file_under cwd dir file)) as [->|Hne].
      * rewrite fs_get_set_same. eexists. split; [reflexivity|].
        split; reflexivity.
      * rewrite fs_get_set_other by exact Hne. eauto.
    + repeat constructor.
Qed.

Lemma fix_files_ok (dir : list string) (files : list string) (w : world) :
  Forall (fun c => clean c = true) dir ->
  Forall (fun file =>
            eligible file = true ->
            clean file = true /\ usable w (file_under cwd dir file)) files ->
  exists w' lines,
    fix_files cwd (SRC_ROOT cwd ++ tail_path dir) files w = (Ok tt, w')
    /\ (forall q, usable w q -> usable w' q)
    /\ w_stdout w' = (w_stdout w ++ lines)%list
    /\ Forall updating lines.
Proof.
  intros Hdir. revert w. induction files as [|file files IH]; intros w Hfiles.
  - exists w, []. repeat split; auto; now rewrite app_nil_r.
  - inversion Hfiles as [|? ? Hfile Hrest]; subst.
    unfold fix_files. cbn [for_each]. fold (fix_files cwd (SRC_ROOT cwd ++ tail_path dir) files).
    unfold bind.
    destruct (eligible file) eqn:Hel.
    + destruct (Hfile eq_refl) as [Hclean Husable].
      rewrite (join_root_file dir file Hdir Hclean).
      destruct (fix_imports_in_file_ok dir file w Hdir Hclean Hel Husable)
        as (w1 & l1 & -> & Hkeep1 & Hout1 & Hl1).
      destruct (IH w1) as (w2 & l2 & -> & Hkeep2 & Hout2 & Hl2).
      { eapply Forall_impl; [|exact Hrest]. intros g Hg Hgel.
        destruct (Hg Hgel). auto. }
      exists w2, (l1 ++ l2)%list. repeat split; auto.
      * now rewrite Hout2, Hout1, <- app_assoc.
      * now apply Forall_app.
    + cbn [ret].
      destruct (IH w Hrest) as (w2 & l2 & -> & Hkeep2 & Hout2 & Hl2).
      exists w2, l2. auto.
Qed.

Lemma tree_ok_keeps (walk : list (string * list string * list string))
    (w w' : world) :
  (forall q, usable w q -> usable w' q) ->
  tree_ok cwd walk w -> tree_ok cwd walk w'.
Proof.
  intros Hkeep. unfold tree_ok. apply Forall_impl.
  intros [[root dirs] files] (dir & Hdir & Hroot & Hfiles).
  exists dir. repeat split; auto.
  eapply Forall_impl; [|exact Hfiles]. intros g Hg Hgel.
  destruct (Hg Hgel). auto.
Qed.

Lemma fix_tree_ok (walk : list (string * list string * list string))
    (w : world) :
  tree_ok cwd walk w ->
  exists w' lines,
    fix_tree cwd walk w = (Ok tt, w')
    /\ w_stdout w' = (w_stdout w ++ lines)%list
    /\ Forall updating lines.
Proof.
  revert w. induction walk as [|[[root dirs] files] walk IH]; intros w Hok.
  - exists w, []. repeat split; auto; now rewrite app_nil_r.
  - inversion Hok as [|? ? Hentry Hrest]; subst.
    cbn beta iota in Hentry. destruct Hentry as (dir & Hdir & Hroot & Hfiles).
    subst root. unfold fix_tree. cbn [for_each]. fold (fix_tree cwd walk). unfold bind.
    destruct (fix_files_ok dir files w Hdir Hfiles)
      as (w1 & l1 & -> & Hkeep1 & Hout1 & Hl1).
    destruct (IH w1) as (w2 & l2 & -> & Hout2 & Hl2).
    { now apply (tree_ok_keeps walk w w1). }
    exists w2, (l1 ++ l2)%list. repeat split.
    + now rewrite Hout2, Hout1, <- app_assoc.
    + now apply Forall_app.
Qed.

End WellFormedTree.

(** X13.  On a tree of plain names whose source files can be read and
    written, wherever the tool is started, [main] returns: it raises
    nothing, prints [Starting import fix...], then only [Updating ...]
    lines, then [Done.]. *)
Theorem main_completes (cwd : string)
    (walk : list (string * list string * list string)) (w : world) :
  PosixPath.isabs cwd = true ->
  tree_ok cwd walk w ->
  exists w' lines,
    main cwd walk w = (Ok tt, w')
    /\ w_stdout w'
       = (w_stdout w ++ "Starting import fix..." :: lines ++ ["Done."])%list
    /\ Forall updating lines.
Proof.
  intros Habs Hok. unfold main, bind at 1. cbn [print].
  set (w0 := World (w_files w) (w_stdout w ++ ["Starting import fix..."])).
  assert (Hok0 : tree_ok cwd walk w0) by (now apply (tree_ok_keeps cwd walk w)).
  destruct (fix_tree_ok cwd Habs walk w0 Hok0) as (w1 & lines & Hrun & Hout & Hl).
  unfold bind. rewrite Hrun. cbn [print].
  eexists. exists lines. split; [reflexivity|]. split; [|exact Hl].
  cbn [w_stdout]. rewrite Hout. unfold w0. cbn [w_stdout].
  now rewrite <- !app_assoc.
Qed.

Lemma main_completes_witness :
  exists w' lines,
    main "/repo" styled_walk styled_world = (Ok tt, w')
    /\ w_stdout w'
       = (w_stdout styled_world
          ++ "Starting import fix..." :: lines ++ ["Done."])%list
    /\ Forall updating lines.
Proof.
  apply (main_completes "/repo" styled_walk styled_world); [reflexivity|].
  unfold tree_ok, styled_walk.
  apply Forall_cons; [|apply Forall_cons; [|apply Forall_cons; [|constructor]]].
  - exists []. split; [constructor|]. split; [reflexivity|constructor].
  - exists ["features"]. split; [now repeat constructor|].
    split; [reflexivity|constructor].
  - exists ["features"; "capture"]. split; [now repeat constructor|].
    split; [reflexivity|].
    apply Forall_cons; [|apply Forall_cons; [|constructor]].
    + intros _. split; [reflexivity|].
      exists (File "import y from '../lib/y';" true true).
      split; [reflexivity|]. split; reflexivity.
    + intros Hcss. discriminate Hcss.
Defined.

(** ** Reading in text mode *)

(** What is read starts with a word without line feed only if what is
    stored does. *)
Lemma startswith_read (p s : string) :
  line_free p = true ->
  Str.startswith (universal_newlines s) p = true -> Str.startswith s p = true.
Proof.
  revert s. induction p as [|a p IH]; intros s Hp H; [reflexivity|].
  cbn [line_free] in Hp. apply andb_prop in Hp as [Ha Hp].
  apply negb_true_iff in Ha.
  destruct s as [|b s]; [discriminate H|].
  cbn [universal_newlines] in H.
  destruct (Ascii.eqb b cr) eqn:Hb.
  - assert (Hhead : forall t, Str.startswith (String newline t) (String a p)
                              = false).
    { intros t. cbn [Str.startswith]. now rewrite Ha. }
    destruct (Str.startswith s (String newline EmptyString)) eqn:Hs;
      [|now rewrite Hhead in H].
    destruct s as [|b' s']; [discriminate Hs|].
    cbn [Str.startswith] in Hs. rewrite andb_true_r in Hs.
    apply Ascii.eqb_eq in Hs. subst b'.
    cbn [universal_newlines] in H.
    change (Ascii.eqb newline cr) with false in H. cbv iota in H.
    now rewrite Hhead in H.
  - cbn [Str.startswith] in H |- *. apply andb_prop in H as [Hab H].
    rewrite Hab. now apply IH.
Qed.

Lemma contains_read (p s : string) :
  line_free p = true ->
  Str.contains s p = false -> Str.contains (universal_newlines s) p = false.
Proof.
  intros Hp. induction s as [|b s IH]; intros H.
  - exact H.
  - cbn [Str.contains] in H. apply orb_false_elim in H as [Hstart Hrest].
    specialize (IH Hrest).
    destruct (Str.contains (universal_newlines (String b s)) p) eqn:E;
      [|reflexivity].
    cbn [universal_newlines] in E.
    destruct (Ascii.eqb b cr) eqn:Hb.
    + destruct (Str.startswith s (String newline EmptyString));
        [congruence|].
      cbn [Str.contains] in E. rewrite IH, orb_false_r in E.
      destruct p as [|a p]; [discriminate Hstart|].
      cbn [line_free] in Hp. apply andb_prop in Hp as [Ha _].
      apply negb_true_iff in Ha. cbn [Str.startswith] in E.
      now rewrite Ha in E.
    + cbn [Str.contains] in E. rewrite IH, orb_false_r in E.
      assert (E' : Str.startswith (universal_newlines (String b s)) p = true).
      { cbn [universal_newlines]. now rewrite Hb. }
      apply (startswith_read p _ Hp) in E'. congruence.
Qed.

(** X12.  No write without a change: a readable source file below the
    source root that is not relocated and does not contain the word
    [import] leaves the file system and the console exactly as they were. *)
Theorem fix_imports_in_file_no_op (cwd : string) (dir : list string)
    (name : string) (w : world) (f : file) :
  PosixPath.isabs cwd = true ->
  Forall (fun c => clean c = true) dir -> clean name = true ->
  eligible name = true -> relocated dir = false ->
  fs_get (w_files w) (file_under cwd dir name) = Some f ->
  f_readable f = true ->
  Str.contains (f_content f) "import" = false ->
  fix_imports_in_file cwd (file_under cwd dir name) w = (Ok tt, w).
Proof.
  intros Habs Hdir Hfile Hel Hrel Hget Hr Himp.
  rewrite fix_imports_in_file_run, Hget, (readable_inv f Hr). cbv zeta.
  rewrite (transform_under_root cwd Habs dir name _ Hdir Hfile Hel), Hrel.
  rewrite (step2_copies _ _ _ (contains_read "import" _ eq_refl Himp)).
  cbn [fst]. rewrite String.eqb_refl, app_nil_r. now destruct w.
Qed.

Lemma fix_imports_in_file_no_op_witness :
  let w := World [ ("/repo/src/lib/api.ts",
                    File "export const base = '../lib';" true false) ] [] in
  fix_imports_in_file "/repo" (file_under "/repo" ["lib"] "api.ts") w
  = (Ok tt, w).
Proof.
  intros w.
  apply (fix_imports_in_file_no_op "/repo" ["lib"] "api.ts" w
           (File "export const base = '../lib';" true false));
    try reflexivity.
  now repeat constructor.
Defined.

(** X14.  What a call leaves in the file.  The text read from a file is
    its stored text with [\r\n] and [\r] read as [\n].  After
    [fix_imports_in_file] on a source file below the source root that can
    be read and written, the file holds step 2 applied to step 1 of the
    text read, when that differs from the text read; otherwise the file
    is as it was, its line ends included. *)
Theorem fix_imports_in_file_writes (cwd : string) (dir : list string)
    (name : string) (w : world) (f : file) :
  PosixPath.isabs cwd = true ->
  Forall (fun c => clean c = true) dir -> clean name = true ->
  eligible name = true ->
  fs_get (w_files w) (file_under cwd dir name) = Some f ->
  f_readable f = true -> f_writable f = true ->
  let content := universal_newlines (f_content f) in
  let new_content :=
    fst (fix_component_imports (get_relative_path cwd)
           (file_under cwd dir name)
           (if relocated dir then depth_correction content else content)) in
  fs_get (w_files (snd (fix_imports_in_file cwd (file_under cwd dir name) w)))
    (file_under cwd dir name)
  = Some (if String.eqb new_content content then f
          else File new_content true true).
Proof.
  intros Habs Hdir Hname Hel Hget Hr Hw content new_content.
  rewrite fix_imports_in_file_run, Hget, (readable_inv f Hr). cbv zeta.
  rewrite (transform_under_root cwd Habs dir name _ Hdir Hname Hel).
  fold content. fold new_content.
  destruct (String.eqb new_content content).
  - cbn [snd w_files]. exact Hget.
  - rewrite (writable_inv f Hw). cbn [snd w_files].
    now rewrite fs_get_set_same.
Qed.

Lemma fix_imports_in_file_writes_witness :
  fs_get
    (w_files
       (snd (fix_imports_in_file "/repo"
               (file_under "/repo" ["features"; "capture"] "Panel.tsx")
               crlf_world)))
    (file_under "/repo" ["features"; "capture"] "Panel.tsx")
  = Some (File ("import { api } from '../../lib/api';"
                ++ String newline ("export {};" ++ String newline EmptyString))
               true true).
Proof.
  apply (fix_imports_in_file_writes "/repo" ["features"; "capture"]
           "Panel.tsx" crlf_world
           (File ("import { api } from '../lib/api';" ++ crlf
                  ++ "export {};" ++ crlf) true true)); try reflexivity.
  now repeat constructor.
Defined.

(** ** The groups of a match *)

Lemma list_ascii_app (a b : string) :
  list_ascii_of_string (a ++ b)
  = (list_ascii_of_string a ++ list_ascii_of_string b)%list.
Proof. induction a as [|c a IH]; cbn; [reflexivity|now rewrite IH]. Qed.

Lemma after_after (m1 m2 rest : string) (st : Re.mstate) (r1 : string) :
  after m2 rest (after m1 r1 st) = after (m1 ++ m2) rest st.
Proof.
  unfold after. cbn [Re.ms_behind Re.ms_groups].
  now rewrite list_ascii_app, rev_app_distr, <- app_assoc.
Qed.

(** A match of a pattern without groups reads a prefix of the text ahead
    and hands the rest to its continuation, the groups untouched. *)
Lemma rmatch_steps (r : Re.regex) :
  group_free r = true ->
  forall (st : Re.mstate) (k : Re.mstate -> option Re.mstate) (res : Re.mstate),
    Re.rmatch r st k = Some res ->
    exists mid rest,
      Re.ms_ahead st = mid ++ rest /\ k (after mid rest st) = Some res.
Proof.
  induction r as [| c | p | r1 IH1 r2 IH2 | n r IH | r IH | greedy r IH | s];
    intros Hfree st k res H.
  - exists EmptyString, (Re.ms_ahead st). split; [reflexivity|].
    now destruct st.
  - cbn [Re.rmatch] in H. destruct (Re.ms_ahead st) as [|a rest] eqn:Ha;
      [discriminate|].
    destruct (Ascii.eqb a c); [|discriminate].
    exists (String a EmptyString), rest. split; [reflexivity|exact H].
  - cbn [Re.rmatch] in H. destruct (Re.ms_ahead st) as [|a rest] eqn:Ha;
      [discriminate|].
    destruct (p a); [|discriminate].
    exists (String a EmptyString), rest. split; [reflexivity|exact H].
  - cbn [group_free] in Hfree. apply andb_prop in Hfree as [Hf1 Hf2].
    cbn [Re.rmatch] in H.
    apply (IH1 Hf1) in H as (m1 & rest1 & Ha1 & H).
    apply (IH2 Hf2) in H as (m2 & rest2 & Ha2 & H).
    cbn [after Re.ms_ahead] in Ha2. subst rest1.
    exists (m1 ++ m2), rest2. split.
    + now rewrite Ha1, app_assoc_str.
    + now rewrite after_after in H.
  - discriminate.
  - cbn [group_free] in Hfree. cbn [Re.rmatch] in H. unfold Re.orelse in H.
    destruct (Re.rmatch r st k) as [res'|] eqn:E.
    + injection H as ->. now apply (IH Hfree) in E.
    + exists EmptyString, (Re.ms_ahead st). split; [reflexivity|].
      now destruct st.
  - cbn [group_free] in Hfree. cbn [Re.rmatch] in H.
    revert H. generalize (String.length (Re.ms_ahead st)) as fuel.
    intros fuel. revert st. induction fuel as [|fuel IHf]; intros st H.
    + exists EmptyString, (Re.ms_ahead st). split; [reflexivity|].
      now destruct st.
    + assert (Hstay : k st = Some res ->
                exists mid rest,
                  Re.ms_ahead st = mid ++ rest /\ k (after mid rest st) = Some res).
      { intros Hk. exists EmptyString, (Re.ms_ahead st).
        split; [reflexivity|]. now destruct st. }
      assert (Hmore :
                forall loop_res,
                  Re.rmatch r st
                    (fun st' =>
                       if (String.length (Re.ms_ahead st')
                           <? String.length (Re.ms_ahead st))%nat
                       then loop_res st' else None) = Some res ->
                  (forall st', loop_res st' = Some res ->
                     exists mid rest,
                       Re.ms_ahead st' = mid ++ rest
                       /\ k (after mid rest st') = Some res) ->
                  exists mid rest,
                    Re.ms_ahead st = mid ++ rest
                    /\ k (after mid rest st) = Some res).
      { intros loop_res Hm Hloop.
        apply (IH Hfree) in Hm as (m1 & rest1 & Ha1 & Hm).
        destruct (_ <? _)%nat; [|discriminate].
        apply Hloop in Hm as (m2 & rest2 & Ha2 & Hm).
        cbn [after Re.ms_ahead] in Ha2. subst rest1.
        exists (m1 ++ m2), rest2. split.
        - now rewrite Ha1, app_assoc_str.
        - now rewrite after_after in Hm. }
      cbn beta iota zeta in H. unfold Re.orelse in H.
      destruct greedy.
      * match type of H with
        | match ?a with _ => _ end = _ => destruct a as [res'|] eqn:E
        end.
        -- injection H as ->. eapply Hmore; [exact E|]. intros st'. apply IHf.
        -- now apply Hstay.
      * destruct (k st) as [res'|] eqn:E.
        -- injection H as ->. now apply Hstay.
        -- eapply Hmore; [exact H|]. intros st'. apply IHf.
  - cbn [Re.rmatch] in H. destruct (Re.behind_is _ _); [discriminate|].
    exists EmptyString, (Re.ms_ahead st). split; [reflexivity|].
    now destruct st.
Qed.

Lemma consumed_after (st : Re.mstate) (mid rest : string)
    (behind : list ascii) (groups : list (nat * string)) :
  Re.ms_ahead st = mid ++ rest ->
  Re.consumed st (Re.MState behind rest groups) = mid.
Proof.
  intros H. unfold Re.consumed. cbn [Re.ms_ahead]. rewrite H, length_app_str.
  replace (String.length mid + String.length rest - String.length rest)
    with (String.length mid) by lia.
  apply take_app_length.
Qed.

(** Both patterns are statement patterns. *)
Lemma import_pattern_shape :
  exists prefix path trailer,
    group_free prefix = true /\ group_free path = true
    /\ group_free trailer = true
    /\ import_pattern = statement_pattern prefix path trailer.
Proof. do 3 eexists. repeat split; revgoals; reflexivity. Qed.

Lemma dynamic_import_pattern_shape :
  exists prefix path trailer,
    group_free prefix = true /\ group_free path = true
    /\ group_free trailer = true
    /\ dynamic_import_pattern = statement_pattern prefix path trailer.
Proof. do 3 eexists. repeat split; revgoals; reflexivity. Qed.

Lemma rmatch_seq (r1 r2 : Re.regex) (st : Re.mstate)
    (k : Re.mstate -> option Re.mstate) :
  Re.rmatch (Re.RSeq r1 r2) st k
  = Re.rmatch r1 st (fun st' => Re.rmatch r2 st' k).
Proof. reflexivity. Qed.

(** A group around a pattern without groups records what the pattern
    read. *)
Lemma rmatch_group (n : nat) (r : Re.regex) :
  group_free r = true ->
  forall (st : Re.mstate) (k : Re.mstate -> option Re.mstate) (res : Re.mstate),
    Re.rmatch (Re.RGroup n r) st k = Some res ->
    exists mid rest,
      Re.ms_ahead st = mid ++ rest
      /\ k (Re.MState (rev (list_ascii_of_string mid) ++ Re.ms_behind st) rest
              ((n, mid) :: Re.ms_groups st)) = Some res.
Proof.
  intros Hfree st k res H. cbn [Re.rmatch] in H.
  apply (rmatch_steps _ Hfree) in H as (mid & rest & Ha & H).
  exists mid, rest. split; [exact Ha|].
  unfold Re.close_group, after in H.
  cbn [Re.ms_ahead Re.ms_behind Re.ms_groups] in H.
  now rewrite (consumed_after st mid rest _ _ Ha) in H.
Qed.

Lemma rmatch_quote_group (n : nat) (st : Re.mstate)
    (k : Re.mstate -> option Re.mstate) (res : Re.mstate) :
  Re.rmatch (Re.RGroup n (Re.RClass is_quote)) st k = Some res ->
  exists q rest,
    is_quote q = true /\ Re.ms_ahead st = String q rest
    /\ k (Re.MState (q :: Re.ms_behind st) rest
            ((n, String q EmptyString) :: Re.ms_groups st)) = Some res.
Proof.
  intros H. cbn [Re.rmatch] in H.
  destruct (Re.ms_ahead st) as [|q rest] eqn:Ha; [discriminate|].
  destruct (is_quote q) eqn:Hq; [|discriminate].
  exists q, rest. repeat split; [exact Hq|].
  unfold Re.close_group, Re.advance in H.
  cbn [Re.ms_ahead Re.ms_behind Re.ms_groups] in H.
  now rewrite (consumed_after st (String q EmptyString) rest _ _ Ha) in H.
Qed.

Lemma rmatch_trailer_group (n : nat) (trailer : Re.regex) :
  group_free trailer = true ->
  forall (st : Re.mstate) (k : Re.mstate -> option Re.mstate) (res : Re.mstate),
    Re.rmatch (Re.RGroup n (Re.RSeq (Re.RClass is_quote) trailer)) st k
    = Some res ->
    exists c tail rest behind,
      is_quote c = true /\ Re.ms_ahead st = String c tail ++ rest
      /\ k (Re.MState behind rest ((n, String c tail) :: Re.ms_groups st))
         = Some res.
Proof.
  intros Hfree st k res H. cbn [Re.rmatch] in H.
  destruct (Re.ms_ahead st) as [|c r] eqn:Ha; [discriminate|].
  destruct (is_quote c) eqn:Hc; [|discriminate].
  apply (rmatch_steps _ Hfree) in H as (tail & rest & Hr & H).
  unfold Re.advance in Hr. cbn [Re.ms_ahead] in Hr. subst r.
  exists c, tail, rest. eexists. repeat split; [exact Hc|].
  unfold Re.close_group, after, Re.advance in H.
  cbn [Re.ms_ahead Re.ms_behind Re.ms_groups] in H.
  rewrite (consumed_after st (String c tail) rest _ _ Ha) in H. exact H.
Qed.

(** A match of a statement pattern reads the four groups one after the
    other. *)
Lemma statement_pattern_steps (prefix path trailer : Re.regex) :
  group_free prefix = true -> group_free path = true ->
  group_free trailer = true ->
  forall (st : Re.mstate) (k : Re.mstate -> option Re.mstate) (res : Re.mstate),
    Re.rmatch (statement_pattern prefix path trailer) st k = Some res ->
    exists g1 q g3 c tail rest behind,
      is_quote q = true /\ is_quote c = true
      /\ Re.ms_ahead st
         = g1 ++ String q EmptyString ++ g3 ++ String c tail ++ rest
      /\ k (Re.MState behind rest
              ((4, String c tail) :: (3, g3) :: (2, String q EmptyString)
               :: (1, g1) :: Re.ms_groups st)) = Some res.
Proof.
  intros Hp Hpath Ht st k res H.
  unfold statement_pattern in H. rewrite rmatch_seq in H.
  apply (rmatch_group _ _ Hp) in H as (g1 & r1 & Ha1 & H).
  rewrite rmatch_seq in H.
  apply rmatch_quote_group in H as (q & r2 & Hq & Ha2 & H).
  rewrite rmatch_seq in H.
  apply (rmatch_group _ _ Hpath) in H as (g3 & r3 & Ha3 & H).
  apply (rmatch_trailer_group _ _ Ht) in H as (c & tail & rest & behind & Hc & Ha4 & H).
  cbn [Re.ms_ahead Re.ms_behind Re.ms_groups] in *.
  subst r1 r2 r3.
  exists g1, q, g3, c, tail, rest, behind.
  repeat split; [exact Hq|exact Hc| |exact H].
  rewrite Ha1. cbn [append]. reflexivity.
Qed.

Lemma statement_pattern_match (prefix path trailer : Re.regex) :
  group_free prefix = true -> group_free path = true ->
  group_free trailer = true ->
  forall (must_advance : bool) (behind : list ascii) (ahead : string)
         (m : Re.rematch),
    Re.match_at must_advance (statement_pattern prefix path trailer)
      behind ahead = Some m ->
    exists g1 q g3 c tail rest,
      is_quote q = true /\ is_quote c = true
      /\ Re.group m 1 = g1 /\ Re.group m 2 = String q EmptyString
      /\ Re.group m 3 = g3 /\ Re.group m 4 = String c tail
      /\ Re.group m 0 = g1 ++ String q EmptyString ++ g3 ++ String c tail
      /\ ahead = Re.group m 0 ++ rest.
Proof.
  intros Hp Hpath Ht must_advance behind ahead m H.
  unfold Re.match_at in H.
  destruct (Re.rmatch _ _ _) as [st|] eqn:E; [|discriminate].
  injection H as <-.
  apply (statement_pattern_steps _ _ _ Hp Hpath Ht) in E
    as (g1 & q & g3 & c & tail & rest & b & Hq & Hc & Ha & E).
  cbn [Re.ms_ahead Re.ms_groups] in Ha, E.
  destruct (_ && _); [discriminate|]. injection E as <-.
  exists g1, q, g3, c, tail, rest.
  assert (Hfull : ahead = (g1 ++ String q EmptyString ++ g3 ++ String c tail) ++ rest).
  { rewrite Ha, !app_assoc_str. reflexivity. }
  cbn [Re.group Re.m_full Re.m_groups Re.lookup_group Nat.eqb].
  rewrite (consumed_after (Re.MState behind ahead []) _ rest _ _ Hfull).
  repeat split; auto.
Qed.

Lemma import_match_shape (must_advance : bool) (behind : list ascii)
    (ahead : string) (m : Re.rematch) :
  Re.match_at must_advance import_pattern behind ahead = Some m
  \/ Re.match_at must_advance dynamic_import_pattern behind ahead = Some m ->
  exists g1 q g3 c tail rest,
    is_quote q = true /\ is_quote c = true
    /\ Re.group m 1 = g1 /\ Re.group m 2 = String q EmptyString
    /\ Re.group m 3 = g3 /\ Re.group m 4 = String c tail
    /\ Re.group m 0 = g1 ++ String q EmptyString ++ g3 ++ String c tail
    /\ ahead = Re.group m 0 ++ rest.
Proof.
  intros [H|H].
  - destruct import_pattern_shape as (p & pa & t & Hp & Hpa & Ht & E).
    rewrite E in H. now apply (statement_pattern_match p pa t Hp Hpa Ht) in H.
  - destruct dynamic_import_pattern_shape as (p & pa & t & Hp & Hpa & Ht & E).
    rewrite E in H. now apply (statement_pattern_match p pa t Hp Hpa Ht) in H.
Qed.

(** X15.  The groups of a match tile it.  Whatever the text, a match of
    the static or of the dynamic import pattern is group 1, then group 2,
    which is one quote character, then group 3, then group 4, which
    starts with a quote character; group 0 is their concatenation and a
    prefix of the text at the position of the match. *)
Theorem import_match_groups (must_advance : bool) (behind : list ascii)
    (ahead : string) (m : Re.rematch) :
  Re.match_at must_advance import_pattern behind ahead = Some m
  \/ Re.match_at must_advance dynamic_import_pattern behind ahead = Some m ->
  exists g1 q g3 c tail rest,
    is_quote q = true /\ is_quote c = true
    /\ Re.group m 1 = g1 /\ Re.group m 2 = String q EmptyString
    /\ Re.group m 3 = g3 /\ Re.group m 4 = String c tail
    /\ Re.group m 0 = g1 ++ String q EmptyString ++ g3 ++ String c tail
    /\ ahead = Re.group m 0 ++ rest.
Proof. exact (import_match_shape must_advance behind ahead m). Qed.

Lemma import_match_groups_witness :
  let m := statement "import y from " "'" "./Help" "';" in
  exists g1 q g3 c tail rest,
    is_quote q = true /\ is_quote c = true
    /\ Re.group m 1 = g1 /\ Re.group m 2 = String q EmptyString
    /\ Re.group m 3 = g3 /\ Re.group m 4 = String c tail
    /\ Re.group m 0 = g1 ++ String q EmptyString ++ g3 ++ String c tail
    /\ "import y from './Help'; export default y" = Re.group m 0 ++ rest.
Proof.
  intros m.
  apply (import_match_groups false [] "import y from './Help'; export default y" m).
  left. vm_compute. reflexivity.
Defined.

(** X16.  The form of a substituted statement.  For every match of
    either pattern whose path starts with a dot, does not end in [.css]
    and names a key of MAPPING, the statement [g1 q path c tail] comes
    back as [g1 q rel q c tail]: [rel] is what the resolver returns for
    the mapped location, it stands between two copies of the opening
    quote [q], group 4 follows unchanged, and nothing is printed. *)
Theorem substituted_statement_form (cwd filepath : string)
    (must_advance : bool) (behind : list ascii) (ahead : string)
    (m : Re.rematch) (target : string) :
  Re.match_at must_advance import_pattern behind ahead = Some m
  \/ Re.match_at must_advance dynamic_import_pattern behind ahead = Some m ->
  Str.startswith (Re.group m 3) "." = true ->
  Str.endswith (Re.group m 3) ".css" = false ->
  dict_get MAPPING (lookup_name (Re.group m 3)) = Some target ->
  exists g1 q c tail rel,
    is_quote q = true /\ is_quote c = true
    /\ Re.group m 0 = g1 ++ String q (Re.group m 3 ++ String c tail)
    /\ get_relative_path cwd filepath target = Ok rel
    /\ replace_import cwd filepath m
       = (g1 ++ String q (rel ++ String q (String c tail)), []).
Proof.
  intros Hm Hdot Hcss Hget.
  destruct (import_match_shape _ _ _ _ Hm)
    as (g1 & q & g3 & c & tail & rest & Hq & Hc & H1 & H2 & H3 & H4 & H0 & _).
  destruct (get_relative_path_returns cwd filepath target) as (rel & Hrel & _).
  exists g1, q, c, tail, rel. repeat split; auto.
  - rewrite H0, H3. reflexivity.
  - unfold replace_import.
    rewrite (replace_import_substitutes _ _ _ target rel Hdot Hcss Hget Hrel).
    rewrite H1, H2, H4. reflexivity.
Qed.

Lemma substituted_statement_form_witness :
  let m := statement "import(" (String dquote EmptyString) "./Settings"
             (String dquote ")") in
  exists g1 q c tail rel,
    is_quote q = true /\ is_quote c = true
    /\ Re.group m 0 = g1 ++ String q (Re.group m 3 ++ String c tail)
    /\ get_relative_path "/repo" "/repo/src/App.tsx" "features/settings/Settings"
       = Ok rel
    /\ replace_import "/repo" "/repo/src/App.tsx" m
       = (g1 ++ String q (rel ++ String q (String c tail)), []).
Proof.
  intros m.
  apply (substituted_statement_form "/repo" "/repo/src/App.tsx" false []
           ("import(" ++ quoted dquote "./Settings" ++ ")") m
           "features/settings/Settings").
  - right. vm_compute. reflexivity.
  - reflexivity.
  - reflexivity.
  - reflexivity.
Defined.

(** ** Files that mention no moved component *)

Lemma contains_intro (a p b : string) : Str.contains (a ++ p ++ b) p = true.
Proof.
  induction a as [|c a IH].
  - cbn [append]. destruct (p ++ b) eqn:E; cbn [Str.contains];
      rewrite <- ?E, startswith_app; reflexivity.
  - cbn [append Str.contains]. rewrite IH. apply orb_true_r.
Qed.

Lemma contains_tail (c : ascii) (s p : string) :
  Str.contains (String c s) p = false -> Str.contains s p = false.
Proof. cbn [Str.contains]. intros H. now apply orb_false_elim in H. Qed.

Lemma mentions_tail (c : ascii) (s : string) :
  mentions_moved (String c s) = false -> mentions_moved s = false.
Proof.
  unfold mentions_moved. generalize (map fst MAPPING) as keys.
  induction keys as [|k keys IH]; [reflexivity|].
  cbn [existsb]. intros H. apply orb_false_elim in H as [Hk H].
  now rewrite (contains_tail _ _ _ Hk), IH.
Qed.

Lemma mentions_key (content a b key v : string) :
  dict_get MAPPING key = Some v -> content = a ++ key ++ b ->
  mentions_moved content = true.
Proof.
  intros Hget ->. unfold mentions_moved. apply existsb_exists.
  exists key. split; [now apply dict_get_key in Hget|apply contains_intro].
Qed.

(** The name looked up is a piece of the path literal. *)
Lemma lookup_name_inside (path_str : string) :
  exists a b, path_str = a ++ lookup_name path_str ++ b.
Proof.
  unfold lookup_name, PosixPath.basename.
  set (i := Str.rfind_succ sep path_str).
  exists (Str.take i path_str).
  assert (Hb : forall b', Str.drop i path_str = lookup_name path_str ++ b' ->
               path_str = Str.take i path_str ++ lookup_name path_str ++ b').
  { intros b' E. now rewrite <- E, take_drop. }
  unfold lookup_name, PosixPath.basename in Hb. fold i in Hb.
  destruct (has_source_ext (Str.drop i path_str)).
  - unfold PosixPath.splitext_root in *.
    destruct (Str.rfind "." (Str.drop i path_str)) as [dot|].
    + destruct (_ && _).
      * exists (Str.drop dot (Str.drop i path_str)). apply Hb.
        now rewrite take_drop.
      * exists EmptyString. apply Hb. now rewrite app_nil_r_str.
    + exists EmptyString. apply Hb. now rewrite app_nil_r_str.
  - exists EmptyString. apply Hb. now rewrite app_nil_r_str.
Qed.

(** In a text that mentions no moved component every statement comes
    back as matched. *)
Lemma statement_kept
    (resolve : string -> string -> result string) (filepath : string)
    (must_advance : bool) (behind : list ascii) (ahead : string)
    (m : Re.rematch) :
  mentions_moved ahead = false ->
  Re.match_at must_advance import_pattern behind ahead = Some m
  \/ Re.match_at must_advance dynamic_import_pattern behind ahead = Some m ->
  replace_import_with resolve filepath m = (Re.m_full m, [])
  /\ exists c tail rest,
       Re.m_full m = String c tail /\ ahead = Re.m_full m ++ rest.
Proof.
  intros Hfree Hm.
  destruct (import_match_shape _ _ _ _ Hm)
    as (g1 & q & g3 & c & tail & rest & Hq & Hc & H1 & H2 & H3 & H4 & H0 & Ha).
  cbn [Re.group] in H0, Ha. split.
  - apply unmapped_kept.
    destruct (dict_get MAPPING (lookup_name (Re.group m 3))) as [v|] eqn:Hget;
      [|reflexivity].
    destruct (lookup_name_inside (Re.group m 3)) as (a & b & Hin).
    rewrite (mentions_key ahead (g1 ++ String q EmptyString ++ a)
               (b ++ String c tail ++ rest) _ v Hget) in Hfree;
      [discriminate|].
    rewrite Ha, H0. subst g3. rewrite Hin at 1.
    rewrite !app_assoc_str. reflexivity.
  - change (Re.m_full m) with (Re.group m 0).
    destruct g1 as [|x g1]; cbn [append] in H0.
    + exists q, (g3 ++ String c tail)%string, rest. now split.
    + exists x, (g1 ++ String q (g3 ++ String c tail))%string, rest.
      now split.
Qed.

(** A pass whose callback returns every match as it found it copies the
    text. *)
Lemma sub_loop_kept (r : Re.regex) (repl : Re.rematch -> Re.out)
    (good : string -> Prop) :
  (forall c s, good (String c s) -> good s) ->
  (forall must_advance behind ahead m,
     good ahead -> Re.match_at must_advance r behind ahead = Some m ->
     repl m = (Re.m_full m, [])
     /\ exists c tail rest,
          Re.m_full m = String c tail /\ ahead = Re.m_full m ++ rest) ->
  forall (ahead : string) (behind : list ascii) (skip : nat),
    good ahead ->
    Re.sub_loop r repl behind ahead skip = (Str.drop skip ahead, []).
Proof.
  intros Htail Hkept. induction ahead as [|c ahead IH]; intros behind skip Hgood.
  - destruct skip as [|k]; cbn [Re.sub_loop Str.drop]; [|reflexivity].
    destruct (Re.match_at false r behind EmptyString) as [m|] eqn:Hm;
      [|reflexivity].
    destruct (Hkept _ _ _ _ Hgood Hm) as (_ & x & tail & rest & Hfull & Ha).
    rewrite Hfull in Ha. discriminate.
  - pose proof (Htail _ _ Hgood) as Hgood'.
    destruct skip as [|k]; cbn [Re.sub_loop Str.drop]; [|now apply IH].
    destruct (Re.match_at false r behind (String c ahead)) as [m|] eqn:Hm.
    + destruct (Hkept _ _ _ _ Hgood Hm) as (Hrepl & x & tail & rest & Hfull & Ha).
      rewrite Hrepl, Hfull. cbn [String.length].
      rewrite (IH _ _ Hgood'). unfold Re.out_cat. cbn [fst snd app].
      rewrite Hfull in Ha. cbn [append] in Ha. inversion Ha; subst.
      now rewrite drop_app_length.
    + rewrite (IH _ _ Hgood'). reflexivity.
Qed.

Lemma step2_keeps
    (resolve : string -> string -> result string) (filepath content : string) :
  mentions_moved content = false ->
  fix_component_imports resolve filepath content = (content, []).
Proof.
  intros H. unfold fix_component_imports, Re.sub.
  rewrite (sub_loop_kept import_pattern _
             (fun s => mentions_moved s = false) mentions_tail); auto.
  - cbn [fst snd Str.drop].
    rewrite (sub_loop_kept dynamic_import_pattern _
               (fun s => mentions_moved s = false) mentions_tail); auto.
    intros ma behind ahead m Hg Hm. apply (statement_kept _ _ ma behind ahead); auto.
  - intros ma behind ahead m Hg Hm. apply (statement_kept _ _ ma behind ahead); auto.
Qed.

(** X17.  A text that mentions no key of MAPPING goes through step 2
    unchanged, whatever imports it holds, and nothing is printed: the name
    looked up for a statement is a piece of its path literal, so no
    statement finds an entry. *)
Theorem fix_component_imports_without_moved_name
    (resolve : string -> string -> result string) (filepath content : string) :
  mentions_moved content = false ->
  fix_component_imports resolve filepath content = (content, []).
Proof. exact (step2_keeps resolve filepath content). Qed.

Lemma fix_component_imports_without_moved_name_witness :
  fix_component_imports failing_resolve "/repo/src/features/capture/Panel.tsx"
    "import { api } from '../lib/api';
const view = import('./components/Chart');"
  = ("import { api } from '../lib/api';
const view = import('./components/Chart');", []).
Proof.
  apply (fix_component_imports_without_moved_name failing_resolve
           "/repo/src/features/capture/Panel.tsx"
           "import { api } from '../lib/api';
const view = import('./components/Chart');").
  reflexivity.
Defined.

(** *** A corrected text read in text mode *)

Lemma behind_is_trail (b b' t : list ascii) :
  b' = (trail b ++ t)%list ->
  Re.behind_is lookbehind b = true -> Re.behind_is lookbehind b' = true.
Proof.
  intros -> H. unfold lookbehind in *. cbn [list_ascii_of_string rev app] in *.
  destruct b as [|x1 [|x2 [|x3 b]]]; cbn [Re.behind_is] in H.
  - discriminate H.
  - apply andb_prop in H as [_ H]. discriminate H.
  - apply andb_prop in H as [_ H]. apply andb_prop in H as [_ H].
    discriminate H.
  - apply andb_prop in H as [H1 H]. apply andb_prop in H as [H2 H].
    apply andb_prop in H as [H3 _].
    apply Ascii.eqb_eq in H1, H2, H3. subst x1 x2 x3. reflexivity.
Qed.

(** Reading the line ends as [\n] keeps a text guarded. *)
Lemma guarded_read (f : string) :
  line_free f = true ->
  forall (ahead : string) (behind behind' : list ascii),
    (exists t, behind' = (trail behind ++ t)%list) ->
    guarded f behind ahead = true ->
    guarded f behind' (universal_newlines ahead) = true.
Proof.
  intros Hf.
  assert (Hp : line_free ("../" ++ f) = true) by exact Hf.
  induction ahead as [|c rest IH]; intros behind behind' Hb H; [reflexivity|].
  cbn [guarded] in H. apply andb_prop in H as [Hhere Hrest].
  assert (Hcut : Ascii.eqb c cr || Ascii.eqb c newline = true ->
                 forall b, exists t, b = (trail (c :: behind) ++ t)%list).
  { intros Hc b. exists b. cbn [trail]. now rewrite Hc. }
  cbn [universal_newlines]. destruct (Ascii.eqb c cr) eqn:Hc.
  - destruct (Str.startswith rest (String newline EmptyString)).
    + apply (IH (c :: behind)); [now apply Hcut|exact Hrest].
    + cbn [guarded]. apply andb_true_intro. split; [reflexivity|].
      apply (IH (c :: behind)); [now apply Hcut|exact Hrest].
  - cbn [guarded]. apply andb_true_intro. split.
    + destruct (Str.startswith (String c (universal_newlines rest))
                  ("../" ++ f)) eqn:E; [|reflexivity].
      cbn [negb orb].
      assert (E' : Str.startswith (universal_newlines (String c rest))
                     ("../" ++ f) = true).
      { cbn [universal_newlines]. now rewrite Hc. }
      apply (startswith_read _ _ Hp) in E'. rewrite E' in Hhere.
      destruct Hb as (t & Hb). now apply (behind_is_trail behind _ t).
    + apply (IH (c :: behind)); [|exact Hrest].
      destruct (Ascii.eqb c newline) eqn:Hn.
      * apply Hcut. rewrite ?Hn. apply orb_true_r.
      * destruct Hb as (t & ->). exists t. cbn [trail]. now rewrite Hc, Hn.
Qed.

(** A text the depth correction leaves alone is left alone when read in
    text mode. *)
Lemma depth_correction_read (content : string) :
  depth_correction content = content ->
  depth_correction (universal_newlines content) = universal_newlines content.
Proof.
  intros Hfix. apply depth_correction_guarded.
  pose proof (passes_guard FOLDERS [] content eq_refl eq_refl) as Hg.
  fold (depth_correction content) in Hg. rewrite Hfix in Hg.
  cbn [app] in Hg. rewrite forallb_forall in Hg. apply forallb_forall.
  intros f Hin. apply (guarded_read f) with (behind := []).
  - assert (Hall : forallb line_free FOLDERS = true) by reflexivity.
    rewrite forallb_forall in Hall. now apply Hall.
  - now exists [].
  - now apply Hg.
Qed.

Lemma mentions_read (content : string) :
  mentions_moved content = false ->
  mentions_moved (universal_newlines content) = false.
Proof.
  unfold mentions_moved. intros H.
  destruct (existsb _ _) eqn:E in |- *; [|reflexivity].
  apply existsb_exists in E as (key & Hin & Hc).
  assert (Hall : forallb line_free (map fst MAPPING) = true)
    by (vm_compute; reflexivity).
  rewrite forallb_forall in Hall.
  destruct (Str.contains content key) eqn:Hk.
  - assert (Hex : existsb (fun key => Str.contains content key)
                    (map fst MAPPING) = true)
      by (apply existsb_exists; eauto).
    congruence.
  - rewrite (contains_read key content (Hall key Hin) Hk) in Hc. discriminate.
Qed.

(** X18.  Unrelated files are not rewritten: a readable source file below
    the source root that mentions no key of MAPPING, and that is either
    not relocated or already depth-corrected, leaves the file system and
    the console exactly as they were, whatever imports it holds. *)
Theorem fix_imports_in_file_unrelated (cwd : string) (dir : list string)
    (name : string) (w : world) (f : file) :
  PosixPath.isabs cwd = true ->
  Forall (fun c => clean c = true) dir -> clean name = true ->
  eligible name = true ->
  fs_get (w_files w) (file_under cwd dir name) = Some f ->
  f_readable f = true ->
  (if relocated dir then depth_correction (f_content f) else f_content f)
  = f_content f ->
  mentions_moved (f_content f) = false ->
  fix_imports_in_file cwd (file_under cwd dir name) w = (Ok tt, w).
Proof.
  intros Habs Hdir Hfile Hel Hget Hr Hdepth Hfree.
  rewrite fix_imports_in_file_run, Hget, (readable_inv f Hr). cbv zeta.
  rewrite (transform_under_root cwd Habs dir name _ Hdir Hfile Hel).
  assert (Hread : (if relocated dir
                   then depth_correction (universal_newlines (f_content f))
                   else universal_newlines (f_content f))
                  = universal_newlines (f_content f)).
  { destruct (relocated dir); [|reflexivity].
    now apply depth_correction_read. }
  rewrite Hread, (step2_keeps _ _ _ (mentions_read _ Hfree)). cbn [fst].
  rewrite String.eqb_refl, app_nil_r. now destruct w.
Qed.

Lemma fix_imports_in_file_unrelated_witness :
  let w := World [ ("/repo/src/features/capture/Panel.tsx",
                    File "import { api } from '../../lib/api';" true false) ]
                 [] in
  fix_imports_in_file "/repo"
    (file_under "/repo" ["features"; "capture"] "Panel.tsx") w
  = (Ok tt, w).
Proof.
  intros w.
  apply (fix_imports_in_file_unrelated "/repo" ["features"; "capture"]
           "Panel.tsx" w
           (File "import { api } from '../../lib/api';" true false));
    try reflexivity.
  now repeat constructor.
Defined.

(** ** The file pass, statement by statement *)

(** A pass puts out, piece by piece, what its callback returns for the
    matches and the characters between them; which pieces there are does
    not depend on the callback. *)
Lemma sub_loop_pieces (r : Re.regex) (repl : Re.rematch -> Re.out) :
  forall (ahead : string) (behind : list ascii) (skip : nat),
    Re.sub_loop r repl behind ahead skip
    = (glue (map (fun p => fst (piece_out repl p))
               (Re.pieces_loop r behind ahead skip)),
       flat_map (fun p => snd (piece_out repl p))
         (Re.pieces_loop r behind ahead skip)).
Proof.
  induction ahead as [|c rest IH]; intros behind skip.
  - destruct skip; cbn [Re.sub_loop Re.pieces_loop]; [|reflexivity].
    destruct (Re.match_at false r behind EmptyString) as [m|]; [|reflexivity].
    cbn [map flat_map glue fold_right piece_out].
    rewrite app_nil_r_str, app_nil_r. now destruct (repl m).
  - destruct skip as [|k]; cbn [Re.sub_loop Re.pieces_loop]; [|apply IH].
    destruct (Re.match_at false r behind (String c rest)) as [m|].
    + destruct (String.length (Re.m_full m)).
      * destruct (Re.match_at true r behind (String c rest)) as [m2|];
          rewrite IH; unfold Re.out_cat;
          cbn [map flat_map glue fold_right piece_out fst snd Re.out_text app];
          now rewrite ?app_assoc_str.
      * rewrite IH. reflexivity.
    + rewrite IH. reflexivity.
Qed.

Lemma piece_out_handled (resolve : string -> string -> result string)
    (filepath : string) (p : Re.piece) :
  piece_out (replace_import_with resolve filepath) p
  = (rewritten resolve filepath p, reported resolve filepath p).
Proof.
  destruct p as [c|m]; [reflexivity|].
  cbn [piece_out rewritten reported]. unfold replace_import_with.
  now destruct (replace_import_try resolve filepath m).
Qed.

(** One pass with the handler, piece by piece. *)
Lemma handled_pass (resolve : string -> string -> result string)
    (filepath : string) (r : Re.regex) (text : string) :
  Re.sub r (replace_import_with resolve filepath) text
  = (glue (map (rewritten resolve filepath) (Re.pieces r text)),
     flat_map (reported resolve filepath) (Re.pieces r text)).
Proof.
  unfold Re.sub, Re.pieces. rewrite sub_loop_pieces. f_equal.
  - f_equal. apply map_ext. intros p. now rewrite piece_out_handled.
  - apply flat_map_ext. intros p. now rewrite piece_out_handled.
Qed.

(** The pieces of a statement pattern make up the text. *)
Lemma statement_pieces_tile (r : Re.regex) (text : string) :
  r = import_pattern \/ r = dynamic_import_pattern ->
  glue (map piece_text (Re.pieces r text)) = text.
Proof.
  intros Hr.
  pose proof (sub_loop_pieces r (fun m => (Re.m_full m, [])) text [] 0) as Hp.
  rewrite (sub_loop_kept r _ (fun _ => True)) in Hp; auto.
  - cbn [Str.drop] in Hp. inversion Hp as [Htext].
    unfold Re.pieces. rewrite Htext at 2. f_equal. apply map_ext.
    now intros [c|m].
  - intros must_advance behind ahead m _ Hm. split; [reflexivity|].
    assert (Hm' : Re.match_at must_advance import_pattern behind ahead = Some m
                  \/ Re.match_at must_advance dynamic_import_pattern behind ahead
                     = Some m)
      by (destruct Hr as [-> | ->]; auto).
    destruct (import_match_shape _ _ _ _ Hm')
      as (g1 & q & g3 & c & tail & rest & _ & _ & _ & _ & _ & _ & H0 & Ha).
    change (Re.m_full m) with (Re.group m 0).
    destruct g1 as [|x g1]; cbn [append] in H0.
    + exists q, (g3 ++ String c tail)%string, rest. now split.
    + exists x, (g1 ++ String q (g3 ++ String c tail))%string, rest.
      now split.
Qed.

(** C6.  The file pass with the handler, for every resolver, raising or
    not.  Each of the two substitutions cuts its input into the
    statements it matches and the characters between them, the same ones
    whatever the resolver does.  A statement on which the [try] block
    raises is put out as it was matched and one [Error processing import]
    line is printed for it, among the lines of the pass; every other
    statement is put out as the block returns it, also after a statement
    that raised.  The pass returns its text and lines: nothing is
    raised. *)
Theorem fix_component_imports_contains_faults
    (resolve : string -> string -> result string) (filepath content : string) :
  let static := Re.pieces import_pattern content in
  let text := glue (map (rewritten resolve filepath) static) in
  let dynamic := Re.pieces dynamic_import_pattern text in
  glue (map piece_text static) = content
  /\ glue (map piece_text dynamic) = text
  /\ fix_component_imports resolve filepath content
     = (glue (map (rewritten resolve filepath) dynamic),
        (flat_map (reported resolve filepath) static
         ++ flat_map (reported resolve filepath) dynamic)%list)
  /\ (forall m e,
        In (Re.Hit m) (static ++ dynamic)%list ->
        replace_import_try resolve filepath m = Raise e ->
        rewritten resolve filepath (Re.Hit m) = piece_text (Re.Hit m)
        /\ In (error_line filepath m e)
             (snd (fix_component_imports resolve filepath content))).
Proof.
  intros static text dynamic.
  assert (Hpass : fix_component_imports resolve filepath content
                  = (glue (map (rewritten resolve filepath) dynamic),
                     (flat_map (reported resolve filepath) static
                      ++ flat_map (reported resolve filepath) dynamic)%list)).
  { unfold fix_component_imports. rewrite !handled_pass. reflexivity. }
  split; [|split; [|split]].
  - apply statement_pieces_tile. now left.
  - apply statement_pieces_tile. now right.
  - exact Hpass.
  - intros m e Hin Hraise. split.
    + cbn [rewritten piece_text]. now rewrite Hraise.
    + rewrite Hpass. cbn [snd]. rewrite <- flat_map_app.
      apply in_flat_map. exists (Re.Hit m). split; [exact Hin|].
      cbn [reported]. rewrite Hraise. now left.
Qed.

(** A file in which the first of two statements makes the resolver raise:
    that statement stays, its line is printed, and the second statement
    is rewritten all the same. *)
Lemma fix_component_imports_fault_sample :
  let resolve :=
    failing_on "components/layout/Sidebar" (get_relative_path "/repo") in
  map piece_text
    (Re.pieces dynamic_import_pattern "import('./Sidebar') import('./Help')")
  = ["import('./Sidebar')"; " "; "import('./Help')"]
  /\ fix_component_imports resolve "/repo/src/App.tsx"
       "import('./Sidebar') import('./Help')"
     = ("import('./Sidebar') import('./components/layout/Help'')",
        ["Error processing import ./Sidebar in /repo/src/App.tsx: no path specified"]).
Proof. vm_compute. split; reflexivity. Qed.

(** ** The name of the component in the resolved path *)

Lemma MAPPING_entries_ok : forallb entry_ok MAPPING = true.
Proof. vm_compute. reflexivity. Qed.

Lemma dict_get_entry (d : list (string * string)) (k v : string) :
  dict_get d k = Some v -> In (k, v) d.
Proof.
  induction d as [|[k' v'] d IH]; simpl; [discriminate|].
  destruct (String.eqb_spec k' k) as [->|_]; [|auto].
  intros E. inversion E. now left.
Qed.

(** Every target of the table is a path of plain components that ends in
    its key. *)
Lemma MAPPING_target (key target : string) :
  dict_get MAPPING key = Some target ->
  exists d,
    target = Str.join sep (d ++ [key])
    /\ Forall (fun c => clean c = true) (d ++ [key]).
Proof.
  intros Hget. apply dict_get_entry in Hget.
  pose proof MAPPING_entries_ok as Hok.
  rewrite forallb_forall in Hok. specialize (Hok _ Hget).
  unfold entry_ok in Hok. cbn [fst snd] in Hok.
  apply andb_prop in Hok as [Hok Hlast]. apply andb_prop in Hok as [Hclean Hjoin].
  apply String.eqb_eq in Hlast, Hjoin.
  destruct (Str.split sep target) as [|c cs] eqn:Hsplit.
  - cbn in Hlast. subst key. cbn in Hjoin. subst target. discriminate Hsplit.
  - assert (Hne : c :: cs <> []) by discriminate.
    destruct (exists_last Hne) as (d & x & Hd). rewrite Hd in *.
    rewrite last_last in Hlast. subst x.
    exists d. split; [now symmetry|].
    apply Forall_forall. now apply forallb_forall.
Qed.

Lemma basename_join (l : list string) (x : string) :
  sep_free x = true -> PosixPath.basename (Str.join sep (l ++ [x])) = x.
Proof.
  intros Hx. unfold PosixPath.basename, Str.rfind_succ.
  destruct l as [|a l].
  - cbn [app Str.join]. now rewrite (rfind_sep_free _ Hx).
  - rewrite join_app by discriminate.
    change (Str.join sep [x]) with x.
    generalize (Str.join sep (a :: l)) as j. intros j.
    rewrite (rfind_app_sep _ _ Hx).
    change (String sep x) with (String sep EmptyString ++ x).
    rewrite <- app_assoc_str.
    replace (S (String.length j))
      with (String.length (j ++ String sep EmptyString))
      by (rewrite length_app_str; cbn; lia).
    apply drop_app_length.
Qed.

Lemma basename_rel_of (up : nat) (down : list string) (x : string) :
  sep_free x = true -> PosixPath.basename (rel_of up (down ++ [x])) = x.
Proof.
  intros Hx. unfold rel_of. rewrite app_assoc.
  destruct (repeat ".." up ++ down)%list as [|a l] eqn:Hl.
  - cbn [app]. cbn [Str.join].
    destruct (Str.startswith x "."); [now apply (basename_join [])|].
    now apply (basename_join ["."]).
  - rewrite <- Hl.
    destruct ((repeat ".." up ++ down) ++ [x])%list as [|b m] eqn:Hm;
      [now destruct (repeat ".." up ++ down)%list|].
    rewrite <- Hm.
    destruct (Str.startswith _ "."); [now apply basename_join|].
    change ("./" ++ Str.join sep ((repeat ".." up ++ down) ++ [x]))
      with ("." ++ String sep (Str.join sep ((repeat ".." up ++ down) ++ [x]))).
    rewrite Hm.
    change ("." ++ String sep (Str.join sep (b :: m)))
      with (Str.join sep ("." :: b :: m)).
    rewrite <- Hm. now apply (basename_join ("." :: _)).
Qed.

Lemma resolved_name (cwd : string) (dir : list string) (file key target : string) :
  PosixPath.isabs cwd = true ->
  Forall (fun c => clean c = true) dir -> sep_free file = true ->
  dict_get MAPPING key = Some target ->
  ~ In key dir ->
  exists rel,
    get_relative_path cwd (file_under cwd dir file) target = Ok rel
    /\ PosixPath.basename rel = key.
Proof.
  intros Habs Hdir Hfile Hget Hnot.
  destruct (MAPPING_target _ _ Hget) as (d & -> & Hd).
  destruct (commonprefix_decompose dir (d ++ [key]))
    as (common & fr & tr & Edir & Eto & Hcp).
  assert (Htr : exists tr', tr = (tr' ++ [key])%list).
  { destruct tr as [|t tr0].
    - rewrite app_nil_r in Eto. elim Hnot. rewrite Edir, <- Eto.
      apply in_or_app. left. apply in_or_app. right. now left.
    - assert (Hne : t :: tr0 <> []) by discriminate.
      destruct (exists_last Hne) as (tr' & x & Htr). rewrite Htr in *.
      rewrite app_assoc in Eto. apply app_inj_tail in Eto as [_ ->].
      now exists tr'. }
  destruct Htr as (tr' & ->).
  exists (rel_of (List.length fr) (tr' ++ [key])).
  assert (Hkey : sep_free key = true).
  { apply Forall_app in Hd as [_ Hk]. inversion Hk as [|? ? Hc _]; subst.
    pose proof (clean_sep_free [key]) as H.
    assert (Hf : Forall (fun c => clean c = true) [key]) by now constructor.
    specialize (H Hf). now inversion H. }
  split; [|now apply basename_rel_of].
  rewrite Eto, Edir.
  apply (resolve_closed_form cwd Habs); try assumption.
  - now rewrite <- Edir.
  - now rewrite <- Eto.
  - rewrite <- Eto. now destruct d.
Qed.

(** X19.  The resolved path names the component.  Every target of
    MAPPING is a path of plain components that ends in its key, so for a
    key of MAPPING and a file below the source root that has no directory
    of that name above it, the path [get_relative_path] returns for the
    key's target has the key as its basename. *)
Theorem get_relative_path_names_component
    (cwd : string) (dir : list string) (file key target : string) :
  PosixPath.isabs cwd = true ->
  Forall (fun c => clean c = true) dir -> sep_free file = true ->
  dict_get MAPPING key = Some target ->
  ~ In key dir ->
  exists rel,
    get_relative_path cwd (file_under cwd dir file) target = Ok rel
    /\ PosixPath.basename rel = key.
Proof. exact (resolved_name cwd dir file key target). Qed.

Lemma get_relative_path_names_component_witness :
  exists rel,
    get_relative_path "/repo"
      (file_under "/repo" ["features"; "settings"] "FullSettings.tsx")
      "components/common/SearchBar" = Ok rel
    /\ PosixPath.basename rel = "SearchBar".
Proof.
  apply (get_relative_path_names_component "/repo" ["features"; "settings"]
           "FullSettings.tsx" "SearchBar" "components/common/SearchBar");
    try reflexivity.
  - now repeat constructor.
  - intros [H|[H|[]]]; discriminate H.
Defined.

(** ** A file that cannot be written *)


